(** * state_re.py: the State Department consular-chiefs text cleaner

    A shallow embedding of [src/state_re.py] (Python 2) and the proofs of
    the properties its specification states about it.

    - [PyRe] models the part of Python's [re] engine that the four
      compiled patterns of the module use: a backtracking matcher with
      ordered alternation, greedy and lazy repetition and capture groups.
    - Python dictionaries whose values are all strings ([clean_pos],
      [name_data]) are finite maps [gmap string value]; the dictionaries
      of fixed shape with mixed values are records.
    - [print], the call to [names2json.save] and [KeyError] are the effects
      of the module; they are threaded through the monad [M].
    - Strings are Python 2 byte strings. *)

From Stdlib Require Import String Ascii List ZArith Lia Bool DecimalString.
From stdpp Require Import gmap strings.
Import ListNotations.

Local Open Scope string_scope.

(** ** Python strings *)

Module PyStr.

(** [s[:n]] *)
Fixpoint take (n : nat) (s : string) : string :=
  match n, s with
  | S n', String a t => String a (take n' t)
  | _, _ => EmptyString
  end.

(** [s.startswith(p)] *)
Fixpoint startswith (p s : string) : bool :=
  match p, s with
  | EmptyString, _ => true
  | String a p', String b s' => if Ascii.eqb a b then startswith p' s' else false
  | String _ _, EmptyString => false
  end.

(** [sub in s], the substring test. *)
Fixpoint contains (sub s : string) : bool :=
  if startswith sub s then true
  else match s with
       | EmptyString => false
       | String _ t => contains sub t
       end.

(** [s.split(sep)] for a non-empty literal separator: the pieces between
    the non-overlapping occurrences of [sep], found from the left.
    [skip] counts the characters of an occurrence still to be passed over
    and [cur] is the piece under construction. *)
Fixpoint split_go (sep : string) (skip : nat) (cur : string) (s : string)
  : list string :=
  match s with
  | EmptyString => [cur]
  | String a t =>
      match skip with
      | S k => split_go sep k cur t
      | O =>
          if startswith sep s
          then cur :: split_go sep (String.length sep - 1) EmptyString t
          else split_go sep O (cur ++ String a EmptyString) t
      end
  end.

Definition split (sep s : string) : list string :=
  split_go sep O EmptyString s.

(** The values the dictionaries of the module hold: a string or [None]. *)
Inductive value : Type :=
| VNone
| VStr (s : string).

(** Truth value: [None] and the empty string are false. *)
Definition truthy (v : value) : bool :=
  match v with
  | VStr (String _ _) => true
  | _ => false
  end.

(** [str(n)] for an integer. *)
Definition str (z : Z) : string := NilZero.string_of_int (Z.to_int z).

Definition nl : string := String (ascii_of_nat 10) EmptyString.

End PyStr.

(** ** The regular expressions of the module

    Python 2 [re] without flags on byte strings: [\d] is [[0-9]], [\w] is
    [[a-zA-Z0-9_]], [\s] is [[ \t\n\r\f\v]], [^] matches at the start of the
    subject only and [$] at its end or before a final newline. *)

Module PyRe.

Inductive citem : Type :=
| CChar (c : ascii)            (* a literal character *)
| CRange (lo hi : ascii)       (* [lo-hi] *)
| CDigit                       (* \d *)
| CWord                        (* \w *)
| CSpace.                      (* \s *)

Inductive quant : Type := Greedy | Lazy.

Inductive regex : Type :=
| Eps
| Set_ (items : list citem)    (* [...], also a single literal or escape *)
| NSet (items : list citem)    (* [^...] *)
| Bol                          (* ^ *)
| Eol                          (* $ *)
| Seq (r1 r2 : regex)
| Alt (r1 r2 : regex)
| Star (q : quant) (r : regex) (* r* and r*? *)
| Group (g : string) (r : regex).
    (* a capture group, keyed by its name, or by its number for a group
       without a name *)

(** [r+], [r+?] and [r{n}] *)
Definition Plus (q : quant) (r : regex) : regex := Seq r (Star q r).

Fixpoint Rep (n : nat) (r : regex) : regex :=
  match n with
  | O => Eps
  | S n' => Seq r (Rep n' r)
  end.

Definition Lit (c : ascii) : regex := Set_ [CChar c].

Definition between (lo hi a : ascii) : bool :=
  (nat_of_ascii lo <=? nat_of_ascii a)%nat && (nat_of_ascii a <=? nat_of_ascii hi)%nat.

Definition is_digit (a : ascii) : bool := between "0" "9" a.

Definition is_word (a : ascii) : bool :=
  between "a" "z" a || between "A" "Z" a || is_digit a || Ascii.eqb a "_".

Definition is_space (a : ascii) : bool :=
  between (ascii_of_nat 9) (ascii_of_nat 13) a || Ascii.eqb a " ".

Definition item_has (i : citem) (a : ascii) : bool :=
  match i with
  | CChar c => Ascii.eqb c a
  | CRange lo hi => between lo hi a
  | CDigit => is_digit a
  | CWord => is_word a
  | CSpace => is_space a
  end.

Definition set_has (items : list citem) (a : ascii) : bool :=
  existsb (fun i => item_has i a) items.

(** The state of a match attempt: the offset in the subject, the part of
    the subject after it and the groups captured so far (latest first). *)
Record mstate : Type := MState {
  pos : nat;
  rest : string;
  caps : list (string * string)
}.

Definition advance (s : mstate) (t : string) : mstate :=
  {| pos := S (pos s); rest := t; caps := caps s |}.

(** Closing group [g], opened in state [s0], in state [s]: the group holds
    the text consumed in between. *)
Definition set_group (g : string) (s0 s : mstate) : mstate :=
  {| pos := pos s; rest := rest s;
     caps := (g, PyStr.take (pos s - pos s0) (rest s0)) :: caps s |}.

Definition at_end (t : string) : bool :=
  match t with
  | EmptyString => true
  | String a EmptyString => Ascii.eqb a (ascii_of_nat 10)
  | _ => false
  end.

Definition cont : Type := mstate -> option mstate.

(** One character of a class. *)
Definition step_char (ok : ascii -> bool) (k : cont) (s : mstate) : option mstate :=
  match rest s with
  | String a t => if ok a then k (advance s t) else None
  | EmptyString => None
  end.

(** Repetition of [body], continued by [k].  An iteration has to consume
    input to be repeated, so [fuel] above the length of the remaining
    subject is never exhausted ([star_loop_fuel] below).  The only repeated
    body of the module that can match without consuming is an alternative
    without a group, so an empty iteration would lead to no new state. *)
Fixpoint star_loop (q : quant) (body : cont -> cont) (k : cont)
    (fuel : nat) (s : mstate) : option mstate :=
  match fuel with
  | O => k s
  | S fuel' =>
      let again (s1 : mstate) :=
        if (pos s <? pos s1)%nat then star_loop q body k fuel' s1 else None in
      match q with
      | Greedy =>
          match body again s with
          | Some r => Some r
          | None => k s
          end
      | Lazy =>
          match k s with
          | Some r => Some r
          | None => body again s
          end
      end
  end.

(** The backtracking matcher, in continuation-passing style: [rmatch r k s]
    is the first way, in the engine's order, to match [r] from [s] such
    that the continuation [k] succeeds too. *)
Fixpoint rmatch (r : regex) (k : cont) (s : mstate) {struct r} : option mstate :=
  match r with
  | Eps => k s
  | Set_ items => step_char (set_has items) k s
  | NSet items => step_char (fun a => negb (set_has items a)) k s
  | Bol => if (pos s =? 0)%nat then k s else None
  | Eol => if at_end (rest s) then k s else None
  | Seq r1 r2 => rmatch r1 (rmatch r2 k) s
  | Alt r1 r2 =>
      match rmatch r1 k s with
      | Some res => Some res
      | None => rmatch r2 k s
      end
  | Star q r1 => star_loop q (rmatch r1) k (S (String.length (rest s))) s
  | Group g r1 => rmatch r1 (fun s1 => k (set_group g s s1)) s
  end.

(** A match object: the text of the groups that took part in the match. *)
Definition match_obj : Type := list (string * string).

(** [m.group(g)]: [None] for a group that did not take part. *)
Fixpoint group (m : match_obj) (g : string) : PyStr.value :=
  match m with
  | [] => PyStr.VNone
  | (g', v) :: m' => if String.eqb g' g then PyStr.VStr v else group m' g
  end.

Definition match_at (r : regex) (p : nat) (t : string) : option match_obj :=
  option_map caps (rmatch r Some {| pos := p; rest := t; caps := [] |}).

(** [pattern.match(text)]: an attempt at offset 0 only. *)
Definition pmatch (r : regex) (text : string) : option match_obj :=
  match_at r 0 text.

(** [pattern.search(text)]: the attempt at the leftmost offset that
    succeeds, the end of the subject included. *)
Fixpoint search_from (r : regex) (p : nat) (t : string) : option match_obj :=
  match match_at r p t with
  | Some m => Some m
  | None =>
      match t with
      | EmptyString => None
      | String _ t' => search_from r (S p) t'
      end
  end.

Definition search (r : regex) (text : string) : option match_obj :=
  search_from r 0 text.

End PyRe.

Import PyRe.

(** ** The compiled patterns (lines 25-30) *)

Definition digit : regex := Set_ [CDigit].
Definition word : regex := Set_ [CWord].

(** The pattern of line 25: a group around a greedy run of characters
    other than digits, commas and opening parentheses. *)
Definition full_position_parser : regex :=
  Group "1" (Star Greedy (NSet [CRange "0" "9"; CChar ","; CChar "("])).

(** The pattern of line 26: group last_name (no comma), a comma, one
    whitespace character, group first_name (no digit, no comma). *)
Definition name_parser : regex :=
  Seq (Group "last_name" (Star Greedy (NSet [CChar ","])))
 (Seq (Lit ",")
 (Seq (Set_ [CSpace])
      (Group "first_name" (Star Greedy (NSet [CRange "0" "9"; CChar ","]))))).

(** The pattern of line 29.  First alternative, group 1: a lazy non-empty
    run of start-of-subject, comma or whitespace; group open_location, a
    greedy run of word characters; then end-of-subject, newline, whitespace
    or tab; then an opening or closing parenthesis, end-of-subject or a
    digit.  Second alternative, group 3: group enclosed_location, a greedy
    run of word characters, between parentheses. *)
Definition location_parser : regex :=
  Alt
    (Group "1"
      (Seq (Plus Lazy (Alt Bol (Alt (Lit ",") (Set_ [CSpace]))))
      (Seq (Group "open_location" (Plus Greedy word))
      (Seq (Alt Eol (Alt (Lit (ascii_of_nat 10)) (Alt (Set_ [CSpace]) (Lit (ascii_of_nat 9)))))
           (Alt (Lit "(") (Alt (Lit ")") (Alt Eol digit)))))))
    (Group "3"
      (Seq (Lit "(")
      (Seq (Group "enclosed_location" (Plus Greedy word))
           (Lit ")")))).

(** The pattern of line 30, three alternatives, each between parentheses:
    a lazy run without parentheses, group year_from (four digits), a hyphen
    between two lazy runs without parentheses or hyphens, group year_to
    (four digits), a lazy run without parentheses; or group complex_year
    (four digits) between two lazy runs without parentheses; or group
    simple_year (four digits) alone. *)
Definition year_parser : regex :=
  Alt
    (Seq (Lit "(")
    (Seq (Star Lazy (NSet [CChar "("; CChar ")"]))
    (Seq (Group "year_from" (Rep 4 digit))
    (Seq (Star Lazy (NSet [CChar "("; CChar ")"; CChar "-"]))
    (Seq (Lit "-")
    (Seq (Star Lazy (NSet [CChar "("; CChar ")"; CChar "-"]))
    (Seq (Group "year_to" (Rep 4 digit))
    (Seq (Star Lazy (NSet [CChar "("; CChar ")"]))
         (Lit ")")))))))))
 (Alt
    (Seq (Lit "(")
    (Seq (Star Lazy (NSet [CChar "("; CChar ")"]))
    (Seq (Group "complex_year" (Rep 4 digit))
    (Seq (Star Lazy (NSet [CChar "("; CChar ")"]))
         (Lit ")")))))
    (Seq (Lit "(")
    (Seq (Group "simple_year" (Rep 4 digit))
         (Lit ")")))).


(** ** Effects: [print], [names2json.save] and exceptions *)

Import PyStr.

(** [clean_pos], [name_data] *)
Abbreviation dict := (gmap string value).

Module Raw.
Record person : Type := { name : string; positions : list string }.
Record dataset : Type := { count : Z; raw_people : list person }.
End Raw.

Module Clean.
(** [clean_person]: the name keys are absent when the name did not parse. *)
Record person : Type := {
  first_name : option value;
  last_name : option value;
  positions : list dict
}.
Record dataset : Type := {
  count : Z;
  people : list person;
  errors : list Raw.person
}.
End Clean.

Inductive exn : Type :=
| KeyError (key : string)
| IndexError
| TypeError.

Inductive event : Type :=
| Print (line : string)
| Save (clean_data : Clean.dataset) (file : string).

(** A computation emits events and then raises or returns. *)
Definition M (A : Type) : Type := (list event * (exn + A))%type.

Definition ret {A : Type} (x : A) : M A := ([], inr x).

Definition raise {A : Type} (e : exn) : M A := ([], inl e).

Definition bind {A B : Type} (m : M A) (f : A -> M B) : M B :=
  match snd m with
  | inl e => (fst m, inl e)
  | inr x => ((fst m ++ fst (f x))%list, snd (f x))
  end.

Notation "x <- m ;; k" := (bind m (fun x => k))
  (at level 100, m at next level, right associativity).

Definition print (line : string) : M unit := ([Print line], inr tt).

(** [names2json.save(clean_data, file)]: the module is not part of the
    sources; the call is recorded with its arguments. *)
Definition save (clean_data : Clean.dataset) (file : string) : M unit :=
  ([Save clean_data file], inr tt).

(** [d[key]] *)
Definition getitem (d : dict) (key : string) : M value :=
  match d !! key with
  | Some v => ret v
  | None => raise (KeyError key)
  end.

(** [l[i]] *)
Definition index {A : Type} (l : list A) (i : nat) : M A :=
  match nth_error l i with
  | Some x => ret x
  | None => raise IndexError
  end.

(** [for x in l: st = body(st, x)] *)
Fixpoint for_each {A S : Type} (body : S -> A -> M S) (l : list A) (st : S) : M S :=
  match l with
  | [] => ret st
  | x :: l' => st' <- body st x ;; for_each body l' st'
  end.

(** The datasets handed to [names2json.save] during a run. *)
Definition saved (evs : list event) : list Clean.dataset :=
  flat_map (fun e => match e with Save d _ => [d] | Print _ => [] end) evs.

(** ** The functions of the module *)

(** [scrubBadTitles] (lines 169-171); the dictionary it updates in place is
    returned. *)
Definition scrubBadTitles (position : dict) : M dict :=
  title <- getitem position "title" ;;
  match title with
  | VStr t =>
      if contains "no-label" t
      then ret (<["title" := VStr "NO POSITION TITLE AVAILABLE"]> position)
      else ret position
  | VNone => raise TypeError
  end.

(** The argument of [split] at line 114. *)
Definition split_sep : string := "[^(),]*?,".

(** Lines 108-121: the title and the working text. *)
Definition title_stage (position : string) : M (dict * string) :=
  let clean_pos : dict := <["raw_position" := VStr position]> ∅ in
  let text := position in
  let split_str := split split_sep text in
  first <- index split_str 0 ;;
  if negb (String.eqb first text) then
    second <- index split_str 1 ;;
    ret (<["title" := VStr first]> clean_pos, second)
  else
    match pmatch full_position_parser text with
    | Some full_title => ret (<["title" := group full_title "1"]> clean_pos, text)
    | None => ret (clean_pos, text)
    end.

(** Lines 128-140. *)
Definition year_stage (text : string) (clean_pos : dict) : dict :=
  match search year_parser text with
  | Some year =>
      if truthy (group year "year_from") && truthy (group year "year_to") then
        <["year_to" := group year "year_to"]>
          (<["year_from" := group year "year_from"]> clean_pos)
      else if truthy (group year "simple_year") then
        <["year_single" := group year "simple_year"]> clean_pos
      else if truthy (group year "complex_year") then
        <["year_single" := group year "complex_year"]> clean_pos
      else
        <["year_text" := VStr text]> clean_pos
  | None => <["year_text" := VStr text]> clean_pos
  end.

(** Lines 144-153. *)
Definition location_stage (text : string) (clean_pos : dict) : dict :=
  match search location_parser text with
  | Some location =>
      if truthy (group location "enclosed_location") then
        <["location" := group location "enclosed_location"]> clean_pos
      else if truthy (group location "open_location") then
        <["location" := group location "open_location"]> clean_pos
      else
        <["loc_text" := VStr text]> clean_pos
  | None => <["loc_text" := VStr text]> clean_pos
  end.

(** Lines 108-153: the dictionary built for one position. *)
Definition clean_position (position : string) : M dict :=
  titled <- title_stage position ;;
  clean_pos <- scrubBadTitles (fst titled) ;;
  ret (location_stage (snd titled) (year_stage (snd titled) clean_pos)).

(** The body of the loop of [cleanPositions]. *)
Definition position_body (cleaned_positions : list dict) (position : string)
  : M (list dict) :=
  clean_pos <- clean_position position ;;
  if (0 <? size clean_pos)%nat then
    ret (cleaned_positions ++ [clean_pos])%list
  else
    _ <- print "No positions were cleaned for a person." ;;
    ret cleaned_positions.

(** [cleanPositions] (lines 104-161) *)
Definition cleanPositions (positions_list : list string) : M (list dict) :=
  for_each position_body positions_list [].

(** [cleanName] (lines 87-97) *)
Definition cleanName (name : string) : M dict :=
  match pmatch name_parser name with
  | None =>
      _ <- print ("ERROR: Name parser error for " ++ name) ;;
      ret ∅
  | Some m =>
      ret (<["last_name" := group m "last_name"]>
             (<["first_name" := group m "first_name"]> ∅))
  end.

(** [cleanPerson] (lines 67-80) *)
Definition cleanPerson (person : Raw.person) : M Clean.person :=
  clean_names <- cleanName (Raw.name person) ;;
  names <- (if (0 <? size clean_names)%nat then
              first <- getitem clean_names "first_name" ;;
              last <- getitem clean_names "last_name" ;;
              ret (Some first, Some last)
            else ret (None, None)) ;;
  positions <- cleanPositions (Raw.positions person) ;;
  ret {| Clean.first_name := fst names;
         Clean.last_name := snd names;
         Clean.positions := positions |}.

(** [clean_person[key]] *)
Definition field (key : string) (v : option value) : M value :=
  match v with
  | Some x => ret x
  | None => raise (KeyError key)
  end.

(** The body of the loop of [cleanConsularData] (lines 45-54). *)
Definition person_body (clean_data : Clean.dataset) (person : Raw.person)
  : M Clean.dataset :=
  clean_person <- cleanPerson person ;;
  first <- field "first_name" (Clean.first_name clean_person) ;;
  named <- (if truthy first then
              last <- field "last_name" (Clean.last_name clean_person) ;;
              ret (truthy last)
            else ret false) ;;
  if named : bool then
    ret {| Clean.count := Clean.count clean_data + 1;
           Clean.people := (Clean.people clean_data ++ [clean_person])%list;
           Clean.errors := Clean.errors clean_data |}
  else
    ret {| Clean.count := Clean.count clean_data;
           Clean.people := Clean.people clean_data;
           Clean.errors := (Clean.errors clean_data ++ [person])%list |}.

(** [cleanConsularData] (lines 38-59) *)
Definition cleanConsularData (data : Raw.dataset) : M unit :=
  clean_data <- for_each person_body (Raw.raw_people data)
                  {| Clean.count := 0; Clean.people := []; Clean.errors := [] |} ;;
  _ <- print ("Successfully added " ++ str (Clean.count clean_data) ++ " entries.") ;;
  _ <- (if negb (Clean.count clean_data =? Raw.count data)%Z then
          print ("There were " ++ str (Raw.count data - Clean.count clean_data)
                 ++ " discrepancies!!")
        else ret tt) ;;
  _ <- save clean_data "output_clean.json" ;;
  print ("==========" ++ nl ++ nl).


(** ** What a pattern can match

    [den r s s'] holds when [r] can match from state [s] and leave state
    [s']: the relation the backtracking matcher searches, without its
    order. *)

Inductive iter (R : mstate -> mstate -> Prop) : mstate -> mstate -> Prop :=
| iter_done (s : mstate) : iter R s s
| iter_more (s s1 s2 : mstate) :
    R s s1 -> (pos s < pos s1)%nat -> iter R s1 s2 -> iter R s s2.

Fixpoint den (r : regex) (s s' : mstate) : Prop :=
  match r with
  | Eps => s' = s
  | Set_ items =>
      exists a t, rest s = String a t /\ set_has items a = true /\ s' = advance s t
  | NSet items =>
      exists a t, rest s = String a t /\ set_has items a = false /\ s' = advance s t
  | Bol => pos s = O /\ s' = s
  | Eol => at_end (rest s) = true /\ s' = s
  | Seq r1 r2 => exists s1, den r1 s s1 /\ den r2 s1 s'
  | Alt r1 r2 => den r1 s s' \/ den r2 s s'
  | Star _ r1 => iter (den r1) s s'
  | Group g r1 => exists s1, den r1 s s1 /\ s' = set_group g s s1
  end.

(** Every match of [r] consumes input. *)
Fixpoint consumes (r : regex) : bool :=
  match r with
  | Set_ _ | NSet _ => true
  | Seq r1 r2 => consumes r1 || consumes r2
  | Alt r1 r2 => consumes r1 && consumes r2
  | Group _ r1 => consumes r1
  | Eps | Bol | Eol | Star _ _ => false
  end.

(** The groups of [r]. *)
Fixpoint groups_of (r : regex) : list string :=
  match r with
  | Seq r1 r2 | Alt r1 r2 => (groups_of r1 ++ groups_of r2)%list
  | Star _ r1 => groups_of r1
  | Group g r1 => g :: groups_of r1
  | Eps | Set_ _ | NSet _ | Bol | Eol => []
  end.

Definition among (l : list string) (g : string) : bool :=
  if in_dec string_dec g l then true else false.

(** Groups that hold a non-empty text after every match of [r]. *)
Fixpoint sure (r : regex) : list string :=
  match r with
  | Seq r1 r2 =>
      (List.filter (fun g => negb (among (groups_of r2) g)) (sure r1) ++ sure r2)%list
  | Alt r1 r2 => List.filter (among (sure r2)) (sure r1)
  | Group g r1 =>
      if consumes r1 then g :: sure r1
      else List.filter (fun g' => negb (String.eqb g g')) (sure r1)
  | Eps | Set_ _ | NSet _ | Bol | Eol | Star _ _ => []
  end.

(** Offsets only grow, and they grow by what leaves the rest of the
    subject. *)
Definition moves (s s' : mstate) : Prop :=
  (pos s <= pos s')%nat /\
  (pos s' + String.length (rest s') = pos s + String.length (rest s))%nat.

(** ** Notions of the specification *)

(** The longest prefix of [t] made of characters that satisfy [ok], and
    what follows it. *)
Fixpoint leading (ok : ascii -> bool) (t : string) : string :=
  match t with
  | String a t' => if ok a then String a (leading ok t') else EmptyString
  | EmptyString => EmptyString
  end.

Fixpoint after (ok : ascii -> bool) (t : string) : string :=
  match t with
  | String a t' => if ok a then after ok t' else t
  | EmptyString => EmptyString
  end.

(** A character that is not a digit, a comma or an opening parenthesis. *)
Definition title_char (a : ascii) : bool :=
  negb (is_digit a || Ascii.eqb a "," || Ascii.eqb a "(").

(** The leading run of title characters of a position. *)
Definition leading_run (position : string) : string := leading title_char position.

(** The title after scrubbing. *)
Definition scrubbed (title : string) : string :=
  if contains "no-label" title then "NO POSITION TITLE AVAILABLE" else title.

(** A key of a dictionary is set. *)
Definition has (d : dict) (key : string) : Prop := is_Some (d !! key).

(** Exactly one of the year outcomes: a single year, a range (both ends),
    or the text fallback. *)
Definition one_year_outcome (d : dict) : Prop :=
  (has d "year_single" /\ ~ has d "year_from" /\ ~ has d "year_to" /\ ~ has d "year_text")
  \/ (~ has d "year_single" /\ has d "year_from" /\ has d "year_to" /\ ~ has d "year_text")
  \/ (~ has d "year_single" /\ ~ has d "year_from" /\ ~ has d "year_to" /\ has d "year_text").

(** Exactly one of the location outcomes. *)
Definition one_location_outcome (d : dict) : Prop :=
  (has d "location" /\ ~ has d "loc_text") \/ (~ has d "location" /\ has d "loc_text").

(** The dictionary a position starts from once its title is known. *)
Definition titled_pos (position title : string) : dict :=
  <["title" := VStr title]> (<["raw_position" := VStr position]> ∅).

(** The dictionary of a position whose title and working text are known. *)
Definition cleaned (position title text : string) : dict :=
  location_stage text (year_stage text (titled_pos position (scrubbed title))).

(** How a position and its dictionary in the output are related. *)
Definition cleaned_from (position : string) (d : dict) : Prop :=
  exists title text,
    title_stage position = ([], inr (titled_pos position title, text)) /\
    d = cleaned position title text.

(** [clean_data] before the loop of [cleanConsularData]. *)
Definition no_data : Clean.dataset :=
  {| Clean.count := 0; Clean.people := []; Clean.errors := [] |}.

(** The result of a computation that returns; [None] when it raises. *)
Definition returned {A : Type} (m : M A) : option A :=
  match snd m with
  | inr x => Some x
  | inl _ => None
  end.

(** The value under [key] in the dictionary a computation returns. *)
Definition key_of (m : M dict) (key : string) : option value :=
  match returned m with
  | Some d => d !! key
  | None => None
  end.

(** Every name of the dataset has the shape of the name pattern. *)
Definition names_parse (data : Raw.dataset) : Prop :=
  Forall (fun person => pmatch name_parser (Raw.name person) <> None)
         (Raw.raw_people data).

(** The same people with another asserted count. *)
Definition with_count (asserted : Z) (data : Raw.dataset) : Raw.dataset :=
  {| Raw.count := asserted; Raw.raw_people := Raw.raw_people data |}.

(** ** Inputs of the scenarios *)

(** Scenario 2: one person, whose name has no comma. *)
Definition unparsed_only : Raw.dataset :=
  {| Raw.count := 1;
     Raw.raw_people := [ {| Raw.name := "SmithJohn"; Raw.positions := [] |} ] |}.

(** A person whose name parses, then one whose name does not. *)
Definition parsed_then_unparsed : Raw.dataset :=
  {| Raw.count := 2;
     Raw.raw_people :=
       [ {| Raw.name := "Smith, John"; Raw.positions := ["Officer (Berlin)"] |};
         {| Raw.name := "SmithJohn"; Raw.positions := [] |} ] |}.

(** Two names that parse, the second without a last name, and an asserted
    count that is off. *)
Definition two_parsed : Raw.dataset :=
  {| Raw.count := 10;
     Raw.raw_people :=
       [ {| Raw.name := "Smith, John"; Raw.positions := ["Ambassador, Paris (1990-1994)"] |};
         {| Raw.name := ", John"; Raw.positions := [] |} ] |}.

(** ** Notions for the further properties *)

(** Every character of [s] satisfies [ok]. *)
Fixpoint all_chars (ok : ascii -> bool) (s : string) : bool :=
  match s with
  | EmptyString => true
  | String a t => ok a && all_chars ok t
  end.

(** The text between two states of a match attempt. *)
Definition consumed (s s' : mstate) : string := take (pos s' - pos s) (rest s).

(** From [s] to [s'] the attempt moved over a prefix of the rest. *)
Definition reads (s s' : mstate) : Prop :=
  moves s s' /\ rest s = consumed s s' ++ rest s'.

(** Every character [r] can consume satisfies [ok]. *)
Fixpoint within (ok : ascii -> bool) (r : regex) : Prop :=
  match r with
  | Set_ items => forall a, set_has items a = true -> ok a = true
  | NSet items => forall a, set_has items a = false -> ok a = true
  | Seq r1 r2 | Alt r1 r2 => within ok r1 /\ within ok r2
  | Star _ r1 | Group _ r1 => within ok r1
  | Eps | Bol | Eol => True
  end.

(** Every match of [r] consumes a character that satisfies [ok]. *)
Fixpoint needs (ok : ascii -> bool) (r : regex) : Prop :=
  match r with
  | Set_ items => forall a, set_has items a = true -> ok a = true
  | NSet items => forall a, set_has items a = false -> ok a = true
  | Seq r1 r2 => needs ok r1 \/ needs ok r2
  | Alt r1 r2 => needs ok r1 /\ needs ok r2
  | Group _ r1 => needs ok r1
  | Eps | Bol | Eol | Star _ _ => False
  end.

(** No character of [s] satisfies [ok]. *)
Definition no_char (ok : ascii -> bool) (s : string) : bool :=
  all_chars (fun a => negb (ok a)) s.

(** The groups of [r], each with the pattern it encloses. *)
Fixpoint group_bodies (r : regex) : list (string * regex) :=
  match r with
  | Seq r1 r2 | Alt r1 r2 => (group_bodies r1 ++ group_bodies r2)%list
  | Star _ r1 => group_bodies r1
  | Group g r1 => (g, r1) :: group_bodies r1
  | Eps | Set_ _ | NSet _ | Bol | Eol => []
  end.

(** A string of exactly four digits. *)
Definition four_digits (v : value) : Prop :=
  exists a b c d,
    v = VStr (String a (String b (String c (String d EmptyString)))) /\
    is_digit a = true /\ is_digit b = true /\ is_digit c = true /\ is_digit d = true.

(** A non-empty string of word characters. *)
Definition a_word (v : value) : Prop :=
  exists a t, v = VStr (String a t) /\ all_chars is_word (String a t) = true.

(** The characters the two groups of the name pattern run over. *)
Definition not_comma (a : ascii) : bool := negb (Ascii.eqb a ",").

Definition first_name_char (a : ascii) : bool :=
  negb (is_digit a || Ascii.eqb a ",").

(** The two parts of a name: the text before the first comma, and, when
    a whitespace character follows that comma, the run of first-name
    characters after it. *)
Definition name_parts (name : string) : option (string * string) :=
  match after not_comma name with
  | String _ (String w rest') =>
      if is_space w
      then Some (leading not_comma name, leading first_name_char rest')
      else None
  | _ => None
  end.

(** [name_data] for a last and a first name. *)
Definition name_data (last first : string) : dict :=
  <["last_name" := VStr last]> (<["first_name" := VStr first]> ∅).

(** The name of a person parses and both parts are non-empty. *)
Definition named (person : Raw.person) : bool :=
  match name_parts (Raw.name person) with
  | Some (String _ _, String _ _) => true
  | _ => false
  end.

(** The name of a person parses. *)
Definition parses (person : Raw.person) : bool :=
  match name_parts (Raw.name person) with
  | Some _ => true
  | None => false
  end.

(** What [cleanPerson] returns for a person. *)
Definition cleaned_person (person : Raw.person) (clean_person : Clean.person) : Prop :=
  returned (cleanPerson person) = Some clean_person.

(** The events of a run that ends with [clean_data] for the asserted count. *)
Definition closing_events (asserted : Z) (clean_data : Clean.dataset) : list event :=
  (Print ("Successfully added " ++ str (Clean.count clean_data) ++ " entries.")
   :: (if (Clean.count clean_data =? asserted)%Z then []
       else [Print ("There were " ++ str (asserted - Clean.count clean_data)
                    ++ " discrepancies!!")])
   ++ [Save clean_data "output_clean.json"; Print ("==========" ++ nl ++ nl)])%list.

(** The character at offset [n] of [s]. *)
Fixpoint char_at (n : nat) (s : string) : option ascii :=
  match s, n with
  | EmptyString, _ => None
  | String a _, O => Some a
  | String _ t, S n' => char_at n' t
  end.

(** A character other than a closing parenthesis. *)
Definition not_close (a : ascii) : bool := negb (Ascii.eqb a ")").

(** The pieces of the year pattern: the runs inside the parentheses and a
    group of four digits. *)
Definition inside : regex := Star Lazy (NSet [CChar "("; CChar ")"]).

Definition inside_no_hyphen : regex :=
  Star Lazy (NSet [CChar "("; CChar ")"; CChar "-"]).

Definition four (g : string) : regex := Group g (Rep 4 digit).

(** A text of four characters. *)
Definition text4 (a b c e : ascii) : string :=
  String a (String b (String c (String e EmptyString))).


(** ** The location of a text, by a scan from the left

    An open form at an offset: a run of commas and whitespace, which may be
    empty at offset 0 only; a non-empty run of word characters, taken whole;
    then the end of the text, or a whitespace character that is followed by
    a parenthesis, a digit or the end of the text.  An enclosed form: a
    non-empty run of word characters between parentheses.  The location is
    the word of the form at the first offset that has one. *)

Definition sep_char (a : ascii) : bool := Ascii.eqb a "," || is_space a.

Definition nonempty (s : string) : bool :=
  match s with
  | EmptyString => false
  | String _ _ => true
  end.

(** After the whitespace: a parenthesis, a digit or the end. *)
Definition boundary2 (y : string) : bool :=
  at_end y
  || match y with
     | String c _ => Ascii.eqb c "(" || Ascii.eqb c ")" || is_digit c
     | EmptyString => false
     end.

(** After the word. *)
Definition boundary (x : string) : bool :=
  at_end x
  || match x with
     | String c y => is_space c && boundary2 y
     | EmptyString => false
     end.

Definition open_at (start : bool) (t : string) : option string :=
  let t1 := after sep_char t in
  if (start || nonempty (leading sep_char t))
     && nonempty (leading is_word t1)
     && boundary (after is_word t1)
  then Some (leading is_word t1)
  else None.

Definition enclosed_at (t : string) : option string :=
  match t with
  | String c t1 =>
      if Ascii.eqb c "(" && nonempty (leading is_word t1) then
        match after is_word t1 with
        | String c' _ => if Ascii.eqb c' ")" then Some (leading is_word t1) else None
        | EmptyString => None
        end
      else None
  | EmptyString => None
  end.

Definition location_at (start : bool) (t : string) : option string :=
  match open_at start t with
  | Some w => Some w
  | None => enclosed_at t
  end.

Fixpoint find_location_from (start : bool) (t : string) : option string :=
  match location_at start t with
  | Some w => Some w
  | None =>
      match t with
      | EmptyString => None
      | String _ t' => find_location_from false t'
      end
  end.

Definition find_location (text : string) : option string :=
  find_location_from true text.

(** The pieces of the location pattern. *)
Definition gap_item : regex := Alt Bol (Alt (Lit ",") (Set_ [CSpace])).

Definition after_word : regex :=
  Alt Eol (Alt (Lit (ascii_of_nat 10)) (Alt (Set_ [CSpace]) (Lit (ascii_of_nat 9)))).

Definition after_space : regex :=
  Alt (Lit "(") (Alt (Lit ")") (Alt Eol digit)).

Definition open_form : regex :=
  Group "1"
    (Seq (Plus Lazy gap_item)
    (Seq (Group "open_location" (Plus Greedy word))
    (Seq after_word after_space))).

Definition enclosed_form : regex :=
  Group "3"
    (Seq (Lit "(")
    (Seq (Group "enclosed_location" (Plus Greedy word))
         (Lit ")"))).

(** What [location_stage] takes from a match: the enclosed location when it
    is there, else the open one. *)
Definition picked (location : match_obj) : value :=
  if truthy (group location "enclosed_location")
  then group location "enclosed_location"
  else group location "open_location".

(** ** The matcher finds only matches of the pattern *)

Section Soundness.

Lemma star_loop_sound (q : quant) (body : cont -> cont) (R : mstate -> mstate -> Prop) :
  (forall k s res, body k s = Some res -> exists s', R s s' /\ k s' = Some res) ->
  forall fuel k s res,
    star_loop q body k fuel s = Some res ->
    exists s', iter R s s' /\ k s' = Some res.
Proof.
  intros Hbody fuel. induction fuel as [|fuel IH]; intros k s res H; simpl in H.
  - exists s. split; [constructor | exact H].
  - assert (Hagain : body (fun s1 => if (pos s <? pos s1)%nat
                                     then star_loop q body k fuel s1 else None) s = Some res ->
                     exists s', iter R s s' /\ k s' = Some res).
    { intros Hb. apply Hbody in Hb. destruct Hb as (s1 & HR & Hk).
      destruct (pos s <? pos s1)%nat eqn:Hlt; [|discriminate].
      apply Nat.ltb_lt in Hlt.
      apply IH in Hk. destruct Hk as (s' & Hit & Hk).
      exists s'. split; [|exact Hk]. econstructor; eauto. }
    destruct q.
    + destruct (body _ s) as [r|] eqn:Hb.
      * inversion H; subst. apply Hagain. reflexivity.
      * exists s. split; [constructor | exact H].
    + destruct (k s) as [r|] eqn:Hk.
      * inversion H; subst. exists s. split; [constructor | exact Hk].
      * apply Hagain. exact H.
Qed.

Lemma step_char_sound (ok : ascii -> bool) (k : cont) (s res : mstate) :
  step_char ok k s = Some res ->
  exists a t, rest s = String a t /\ ok a = true /\ k (advance s t) = Some res.
Proof.
  unfold step_char. destruct (rest s) as [|a t]; [discriminate|].
  destruct (ok a) eqn:Hok; [|discriminate].
  intros H. exists a, t. auto.
Qed.

Lemma rmatch_sound (r : regex) :
  forall k s res, rmatch r k s = Some res ->
  exists s', den r s s' /\ k s' = Some res.
Proof.
  induction r as [|items|items| | |r1 IH1 r2 IH2|r1 IH1 r2 IH2|q r1 IH1|g r1 IH1];
    intros k s res H; cbn [rmatch] in H.
  - exists s. split; [reflexivity | exact H].
  - apply step_char_sound in H. destruct H as (a & t & Hr & Hok & Hk).
    exists (advance s t). split; [|exact Hk]. exists a, t. auto.
  - apply step_char_sound in H. destruct H as (a & t & Hr & Hok & Hk).
    exists (advance s t). split; [|exact Hk]. exists a, t.
    apply negb_true_iff in Hok. auto.
  - destruct (pos s =? 0)%nat eqn:Hp; [|discriminate].
    apply Nat.eqb_eq in Hp. exists s. simpl. auto.
  - destruct (at_end (rest s)) eqn:He; [|discriminate].
    exists s. simpl. auto.
  - apply IH1 in H. destruct H as (s1 & H1 & H).
    apply IH2 in H. destruct H as (s2 & H2 & H).
    exists s2. split; [|exact H]. exists s1. auto.
  - destruct (rmatch r1 k s) as [r|] eqn:H1.
    + inversion H; subst. apply IH1 in H1. destruct H1 as (s' & Hd & Hk).
      exists s'. simpl. auto.
    + apply IH2 in H. destruct H as (s' & Hd & Hk). exists s'. simpl. auto.
  - apply (star_loop_sound q (rmatch r1) (den r1) IH1) in H. exact H.
  - apply IH1 in H. destruct H as (s1 & Hd & Hk).
    exists (set_group g s s1). split; [|exact Hk]. exists s1. auto.
Qed.

Lemma match_at_sound (r : regex) (p : nat) (t : string) (m : match_obj) :
  match_at r p t = Some m ->
  exists s', den r {| pos := p; rest := t; caps := [] |} s' /\ m = caps s'.
Proof.
  unfold match_at. intros H.
  destruct (rmatch r Some _) as [res|] eqn:Hm; [|discriminate].
  simpl in H. inversion H; subst.
  apply rmatch_sound in Hm. destruct Hm as (s' & Hd & Hk).
  inversion Hk; subst. exists res. auto.
Qed.

Lemma search_from_sound (r : regex) (t : string) :
  forall p m, search_from r p t = Some m ->
  exists p' t' s', den r {| pos := p'; rest := t'; caps := [] |} s' /\ m = caps s'.
Proof.
  induction t as [|a t IH]; intros p m H; simpl in H.
  - destruct (match_at r p "") as [m'|] eqn:Hm; [|discriminate].
    inversion H; subst. apply match_at_sound in Hm.
    destruct Hm as (s' & Hd & Hc). eauto.
  - destruct (match_at r p (String a t)) as [m'|] eqn:Hm.
    + inversion H; subst. apply match_at_sound in Hm.
      destruct Hm as (s' & Hd & Hc). eauto.
    + eapply IH. exact H.
Qed.

End Soundness.

(** ** What a match guarantees about its groups *)

Section Groups.

Lemma among_In (l : list string) (g : string) : among l g = true <-> In g l.
Proof. unfold among. destruct (in_dec string_dec g l); split; intros; auto; discriminate. Qed.

Lemma among_not_In (l : list string) (g : string) : among l g = false <-> ~ In g l.
Proof. unfold among. destruct (in_dec string_dec g l); split; intros; auto; try discriminate; contradiction. Qed.

Lemma iter_invariant (R : mstate -> mstate -> Prop) (P : mstate -> mstate -> Prop) :
  (forall s, P s s) ->
  (forall s s1 s2, P s s1 -> P s1 s2 -> P s s2) ->
  (forall s s1, R s s1 -> P s s1) ->
  forall s s', iter R s s' -> P s s'.
Proof.
  intros Hrefl Htrans HR s s' H. induction H as [s|s s1 s2 H1 Hlt H2 IH].
  - apply Hrefl.
  - eapply Htrans; [apply HR; exact H1 | exact IH].
Qed.

Lemma den_moves (r : regex) : forall s s', den r s s' -> moves s s'.
Proof.
  unfold moves.
  induction r as [|items|items| | |r1 IH1 r2 IH2|r1 IH1 r2 IH2|q r1 IH1|g r1 IH1];
    intros s s' H; simpl in H.
  - subst. lia.
  - destruct H as (a & t & Hr & _ & ->). simpl. rewrite Hr. simpl. lia.
  - destruct H as (a & t & Hr & _ & ->). simpl. rewrite Hr. simpl. lia.
  - destruct H as [_ ->]. lia.
  - destruct H as [_ ->]. lia.
  - destruct H as (s1 & H1 & H2). apply IH1 in H1. apply IH2 in H2. lia.
  - destruct H as [H|H]; [apply IH1 in H | apply IH2 in H]; exact H.
  - revert s s' H. apply iter_invariant.
    + intros; lia.
    + intros; lia.
    + exact IH1.
  - destruct H as (s1 & H1 & ->). apply IH1 in H1. simpl. exact H1.
Qed.

Lemma den_consumes (r : regex) :
  consumes r = true -> forall s s', den r s s' -> (pos s < pos s')%nat.
Proof.
  induction r as [|items|items| | |r1 IH1 r2 IH2|r1 IH1 r2 IH2|q r1 IH1|g r1 IH1];
    simpl; intros Hc s s' H; try discriminate.
  - destruct H as (a & t & _ & _ & ->). simpl. lia.
  - destruct H as (a & t & _ & _ & ->). simpl. lia.
  - destruct H as (s1 & H1 & H2).
    pose proof (den_moves _ _ _ H1) as [M1 _].
    pose proof (den_moves _ _ _ H2) as [M2 _].
    apply orb_true_iff in Hc. destruct Hc as [Hc|Hc].
    + specialize (IH1 Hc _ _ H1). lia.
    + specialize (IH2 Hc _ _ H2). lia.
  - apply andb_true_iff in Hc. destruct Hc as [Hc1 Hc2].
    destruct H as [H|H]; eauto.
  - destruct H as (s1 & H1 & ->). simpl. eauto.
Qed.

Lemma take_truthy (n : nat) (t : string) :
  (0 < n)%nat -> (0 < String.length t)%nat -> truthy (VStr (take n t)) = true.
Proof.
  intros Hn Ht. destruct n as [|n]; [lia|]. destruct t as [|a t]; [simpl in Ht; lia|].
  reflexivity.
Qed.

(** Groups outside [r] keep their text. *)
Lemma den_keeps (r : regex) :
  forall s s' g, den r s s' -> ~ In g (groups_of r) ->
  group (caps s') g = group (caps s) g.
Proof.
  induction r as [|items|items| | |r1 IH1 r2 IH2|r1 IH1 r2 IH2|q r1 IH1|g0 r1 IH1];
    intros s s' g H Hg; simpl in H, Hg.
  - subst. reflexivity.
  - destruct H as (a & t & _ & _ & ->). reflexivity.
  - destruct H as (a & t & _ & _ & ->). reflexivity.
  - destruct H as [_ ->]. reflexivity.
  - destruct H as [_ ->]. reflexivity.
  - destruct H as (s1 & H1 & H2).
    rewrite (IH2 _ _ g H2), (IH1 _ _ g H1); auto; intros Hin; apply Hg, in_or_app; auto.
  - destruct H as [H|H]; [apply (IH1 _ _ g H) | apply (IH2 _ _ g H)];
      intros Hin; apply Hg, in_or_app; auto.
  - revert s s' H.
    apply (iter_invariant (den r1) (fun s s' => group (caps s') g = group (caps s) g)).
    + reflexivity.
    + intros s s1 s2 E1 E2. congruence.
    + intros s s1 H. apply (IH1 _ _ g H). exact Hg.
  - destruct H as (s1 & H1 & ->). simpl.
    destruct (String.eqb g0 g) eqn:E.
    + apply String.eqb_eq in E. exfalso. apply Hg. auto.
    + apply (IH1 _ _ g H1). intros Hin. apply Hg. auto.
Qed.

(** The groups of [sure r] hold a non-empty text after a match of [r]. *)
Lemma den_sure (r : regex) :
  forall s s' g, den r s s' -> In g (sure r) -> truthy (group (caps s') g) = true.
Proof.
  induction r as [|items|items| | |r1 IH1 r2 IH2|r1 IH1 r2 IH2|q r1 IH1|g0 r1 IH1];
    intros s s' g H Hg; simpl in H, Hg; try contradiction.
  - destruct H as (s1 & H1 & H2). apply in_app_or in Hg. destruct Hg as [Hg|Hg].
    + apply filter_In in Hg. destruct Hg as [Hg Hn].
      apply negb_true_iff, among_not_In in Hn.
      rewrite (den_keeps r2 _ _ g H2 Hn). eauto.
    + eauto.
  - apply filter_In in Hg. destruct Hg as [Hg1 Hg2]. apply among_In in Hg2.
    destruct H as [H|H]; eauto.
  - destruct H as (s1 & H1 & ->). simpl.
    destruct (consumes r1) eqn:Hc.
    + destruct (String.eqb g0 g) eqn:E.
      * pose proof (den_consumes r1 Hc _ _ H1) as Hlt.
        pose proof (den_moves r1 _ _ H1) as [_ Hlen].
        apply take_truthy; lia.
      * apply String.eqb_neq in E. destruct Hg as [Hg|Hg]; [congruence|]. eauto.
    + apply filter_In in Hg. destruct Hg as [Hg Hne].
      apply negb_true_iff in Hne. rewrite Hne. eauto.
Qed.

(** After a match of the year pattern a range, a complex year or a simple
    year is there. *)
Lemma year_groups (text : string) (year : match_obj) :
  search year_parser text = Some year ->
  truthy (group year "year_from") && truthy (group year "year_to") = true
  \/ truthy (group year "simple_year") = true
  \/ truthy (group year "complex_year") = true.
Proof.
  intros H. apply search_from_sound in H.
  destruct H as (p & t & s' & Hd & ->).
  destruct Hd as [Hd|[Hd|Hd]].
  - left. apply andb_true_iff.
    split; apply (den_sure _ _ _ _ Hd); vm_compute; auto.
  - right; right. apply (den_sure _ _ _ _ Hd); vm_compute; auto.
  - right; left. apply (den_sure _ _ _ _ Hd); vm_compute; auto.
Qed.

(** After a match of the location pattern one of the two location groups
    is there. *)
Lemma location_groups (text : string) (location : match_obj) :
  search location_parser text = Some location ->
  truthy (group location "enclosed_location") = true
  \/ truthy (group location "open_location") = true.
Proof.
  intros H. apply search_from_sound in H.
  destruct H as (p & t & s' & Hd & ->).
  destruct Hd as [Hd|Hd].
  - right. apply (den_sure _ _ _ _ Hd); vm_compute; auto.
  - left. apply (den_sure _ _ _ _ Hd); vm_compute; auto.
Qed.

End Groups.

(** ** The fuel of a repetition is enough *)

Section Fuel.

Lemma step_char_ext (ok : ascii -> bool) (k1 k2 : cont) (s : mstate) :
  (forall a t, rest s = String a t -> ok a = true -> k1 (advance s t) = k2 (advance s t)) ->
  step_char ok k1 s = step_char ok k2 s.
Proof.
  intros H. unfold step_char. destruct (rest s) as [|a t] eqn:Hr; [reflexivity|].
  destruct (ok a) eqn:Hok; [|reflexivity]. apply (H a t eq_refl Hok).
Qed.

Lemma star_loop_ext (q : quant) (body : cont -> cont) (R : mstate -> mstate -> Prop) :
  (forall k1 k2 s, (forall s', R s s' -> k1 s' = k2 s') -> body k1 s = body k2 s) ->
  forall fuel k1 k2 s,
    (forall s', iter R s s' -> k1 s' = k2 s') ->
    star_loop q body k1 fuel s = star_loop q body k2 fuel s.
Proof.
  intros Hbody fuel. induction fuel as [|fuel IH]; intros k1 k2 s H; cbn [star_loop].
  - apply H. constructor.
  - assert (Hk : k1 s = k2 s) by (apply H; constructor).
    assert (Hb : body (fun s1 => if (pos s <? pos s1)%nat
                                 then star_loop q body k1 fuel s1 else None) s
                 = body (fun s1 => if (pos s <? pos s1)%nat
                                   then star_loop q body k2 fuel s1 else None) s).
    { apply Hbody. intros s1 H1. destruct (pos s <? pos s1)%nat eqn:Hlt; [|reflexivity].
      apply Nat.ltb_lt in Hlt. apply IH. intros s' H'. apply H.
      econstructor; eauto. }
    rewrite Hb, Hk. reflexivity.
Qed.

(** The matcher calls its continuation on matches of the pattern only. *)
Lemma rmatch_ext (r : regex) :
  forall k1 k2 s, (forall s', den r s s' -> k1 s' = k2 s') ->
  rmatch r k1 s = rmatch r k2 s.
Proof.
  induction r as [|items|items| | |r1 IH1 r2 IH2|r1 IH1 r2 IH2|q r1 IH1|g r1 IH1];
    intros k1 k2 s H; cbn [rmatch].
  - apply H. reflexivity.
  - apply step_char_ext. intros a t Hr Hok. apply H. exists a, t. auto.
  - apply step_char_ext. intros a t Hr Hok. apply H. exists a, t.
    apply negb_true_iff in Hok. auto.
  - destruct (pos s =? 0)%nat eqn:Hp; [|reflexivity].
    apply Nat.eqb_eq in Hp. apply H. simpl. auto.
  - destruct (at_end (rest s)) eqn:He; [|reflexivity]. apply H. simpl. auto.
  - apply IH1. intros s1 H1. apply IH2. intros s' H2. apply H. exists s1. auto.
  - rewrite (IH1 k1 k2), (IH2 k1 k2); [reflexivity | |];
      intros s' Hd; apply H; simpl; auto.
  - apply (star_loop_ext q (rmatch r1) (den r1) IH1). exact H.
  - apply IH1. intros s1 H1. apply H. exists s1. auto.
Qed.

(** More fuel than the length of the remaining subject changes nothing. *)
Lemma star_loop_fuel (q : quant) (r : regex) (k : cont) :
  forall fuel s,
    (String.length (rest s) < fuel)%nat ->
    star_loop q (rmatch r) k (S fuel) s = star_loop q (rmatch r) k fuel s.
Proof.
  intros fuel. induction fuel as [|fuel IH]; intros s Hlen; [lia|].
  cbn [star_loop].
  assert (Hb : rmatch r (fun s1 => if (pos s <? pos s1)%nat
                                   then star_loop q (rmatch r) k (S fuel) s1 else None) s
               = rmatch r (fun s1 => if (pos s <? pos s1)%nat
                                     then star_loop q (rmatch r) k fuel s1 else None) s).
  { apply rmatch_ext. intros s1 H1.
    destruct (pos s <? pos s1)%nat eqn:Hlt; [|reflexivity].
    apply Nat.ltb_lt in Hlt. apply den_moves in H1. destruct H1 as [_ Hm].
    apply IH. lia. }
  cbn [star_loop] in Hb. rewrite Hb. reflexivity.
Qed.

End Fuel.

(** ** Strings *)

Section Strings.

Lemma append_empty_r (s : string) : s ++ "" = s.
Proof.
  induction s as [|a s IH]; [reflexivity|].
  change (String a (s ++ "") = String a s). now rewrite IH.
Qed.

Lemma append_snoc (cur : string) (a : ascii) (t : string) :
  (cur ++ String a "") ++ t = cur ++ String a t.
Proof.
  induction cur as [|c cur IH]; [reflexivity|].
  change (String c ((cur ++ String a "") ++ t) = String c (cur ++ String a t)).
  now rewrite IH.
Qed.

Lemma split_go_nonempty (sep : string) (s : string) :
  forall skip cur, split_go sep skip cur s <> [].
Proof.
  induction s as [|a t IH]; intros skip cur; simpl; [discriminate|].
  destruct skip; [|apply IH].
  destruct (startswith sep (String a t)); [discriminate | apply IH].
Qed.

(** A split in one piece gives back the string. *)
Lemma split_go_single (sep : string) (s : string) :
  forall cur x, split_go sep 0 cur s = [x] -> x = cur ++ s.
Proof.
  induction s as [|a t IH]; intros cur x H; simpl in H.
  - inversion H. now rewrite append_empty_r.
  - destruct (startswith sep (String a t)).
    + inversion H as [[Hx Hnil]]. now apply split_go_nonempty in Hnil.
    + apply IH in H. now rewrite append_snoc in H.
Qed.

(** Without an occurrence of the separator there is one piece. *)
Lemma split_go_absent (sep : string) (s : string) :
  forall cur, contains sep s = false -> split_go sep 0 cur s = [cur ++ s].
Proof.
  induction s as [|a t IH]; intros cur H; simpl in *.
  - now rewrite append_empty_r.
  - destruct (startswith sep (String a t)); [discriminate|].
    rewrite IH by exact H. now rewrite append_snoc.
Qed.

(** [split_str[0]] exists, and [split_str[1]] does when [split_str[0]]
    is not the whole string. *)
Lemma split_shape (sep s : string) :
  split sep s = [s] \/ exists x y l, split sep s = x :: y :: l.
Proof.
  unfold split. destruct (split_go sep 0 "" s) as [|x [|y l]] eqn:E.
  - now apply split_go_nonempty in E.
  - left. apply split_go_single in E. simpl in E. now subst.
  - right. eauto.
Qed.

Lemma take_leading (ok : ascii -> bool) (t : string) :
  take (String.length (leading ok t)) t = leading ok t.
Proof.
  induction t as [|a t IH]; simpl; [reflexivity|].
  destruct (ok a); simpl; [now rewrite IH | reflexivity].
Qed.

Lemma leading_ext (f g : ascii -> bool) (t : string) :
  (forall a, f a = g a) -> leading f t = leading g t.
Proof.
  intros E. induction t as [|a t IH]; simpl; [reflexivity|].
  rewrite E, IH. reflexivity.
Qed.

Lemma title_char_class (a : ascii) :
  negb (set_has [CRange "0" "9"; CChar ","; CChar "("] a) = title_char a.
Proof.
  unfold title_char, set_has, is_digit. cbn [existsb item_has].
  rewrite (Ascii.eqb_sym "," a), (Ascii.eqb_sym "(" a), orb_false_r, orb_assoc.
  reflexivity.
Qed.

Lemma leading_no_marker (t : string) :
  leading_run t = "" -> contains "no-label" (leading_run t) = false.
Proof. intros ->. reflexivity. Qed.

End Strings.

(** ** The title pattern always matches *)

Section TitlePattern.

Lemma rmatch_NSet (items : list citem) (k : cont) (s : mstate) :
  rmatch (NSet items) k s = step_char (fun a => negb (set_has items a)) k s.
Proof. reflexivity. Qed.

Lemma rmatch_Star (q : quant) (r : regex) (k : cont) (s : mstate) :
  rmatch (Star q r) k s = star_loop q (rmatch r) k (S (String.length (rest s))) s.
Proof. reflexivity. Qed.

Lemma rmatch_Group (g : string) (r : regex) (k : cont) (s : mstate) :
  rmatch (Group g r) k s = rmatch r (fun s1 => k (set_group g s s1)) s.
Proof. reflexivity. Qed.

(** A greedy run over a negated character class, followed by something
    that cannot fail, stops at the end of the run. *)
Lemma star_class_greedy (items : list citem) (k : cont) :
  (forall s, k s <> None) ->
  forall fuel s,
    star_loop Greedy (rmatch (NSet items)) k fuel s =
    k {| pos := pos s + String.length (leading (fun a => negb (set_has items a)) (rest s));
         rest := after (fun a => negb (set_has items a)) (rest s);
         caps := caps s |}
    \/ (fuel <= String.length (rest s))%nat.
Proof.
  intros Hk fuel. induction fuel as [|fuel IH]; intros s; [right; lia|].
  destruct s as [p t c]. cbn [star_loop]. rewrite rmatch_NSet. unfold step_char.
  cbn [rest pos caps].
  destruct t as [|a t]; cbn [leading after String.length].
  - left. now rewrite Nat.add_0_r.
  - destruct (negb (set_has items a)) eqn:Hok; cbn [String.length].
    + assert (Hlt : (p <? pos (advance {| pos := p; rest := String a t; caps := c |} t))%nat
                    = true) by (apply Nat.ltb_lt; simpl; lia).
      rewrite Hlt.
      destruct (IH (advance {| pos := p; rest := String a t; caps := c |} t)) as [E|E].
      * left. rewrite E. cbn [advance pos rest caps].
        rewrite Nat.add_succ_r.
        match goal with
        | |- match ?x with _ => _ end = _ =>
            destruct x eqn:Ek; [symmetry; exact Ek | now apply Hk in Ek]
        end.
      * right. simpl in E. lia.
    + left. now rewrite Nat.add_0_r.
Qed.

Lemma full_position_parser_match (text : string) :
  pmatch full_position_parser text = Some [("1", leading_run text)].
Proof.
  unfold pmatch, match_at, full_position_parser.
  rewrite rmatch_Group, rmatch_Star. cbn [rest].
  set (s0 := {| pos := 0; rest := text; caps := [] |}).
  set (k := fun s1 : mstate => Some (set_group "1" s0 s1)).
  assert (Hk : forall s, k s <> None) by (intros s; discriminate).
  destruct (star_class_greedy [CRange "0" "9"; CChar ","; CChar "("] k Hk
              (S (String.length text)) s0) as [E|E].
  - rewrite E. unfold k, set_group, s0. cbn [option_map caps pos rest].
    rewrite Nat.add_0_l, Nat.sub_0_r, take_leading.
    unfold leading_run. rewrite (leading_ext _ title_char); [reflexivity|].
    apply title_char_class.
  - simpl in E. lia.
Qed.

End TitlePattern.

(** ** One position *)

Ltac map_lookup :=
  repeat first
    [ rewrite lookup_insert_eq
    | rewrite lookup_insert_ne by discriminate
    | rewrite lookup_empty ].

Section Position.

Lemma bind_ret_l {A B : Type} (x : A) (f : A -> M B) : bind (ret x) f = f x.
Proof. unfold bind, ret. simpl. now destruct (f x). Qed.

Lemma title_stage_returns (position : string) :
  exists title text,
    title_stage position = ([], inr (titled_pos position title, text)).
Proof.
  unfold title_stage.
  assert (Hfull : (match pmatch full_position_parser position with
                   | Some full_title =>
                       ret (<["title" := group full_title "1"]>
                              (<["raw_position" := VStr position]> (∅ : dict)), position)
                   | None => ret (<["raw_position" := VStr position]> ∅, position)
                   end)
                  = ([], inr (titled_pos position (leading_run position), position))).
  { rewrite full_position_parser_match. reflexivity. }
  destruct (split_shape split_sep position) as [E|(x & y & l & E)]; rewrite E.
  - unfold index. cbn [nth_error]. rewrite bind_ret_l, String.eqb_refl.
    cbn [negb]. rewrite Hfull. eauto.
  - unfold index. cbn [nth_error]. rewrite bind_ret_l.
    destruct (String.eqb x position); cbn [negb].
    + rewrite Hfull. eauto.
    + rewrite bind_ret_l. exists x, y. reflexivity.
Qed.

(** Without the literal text of line 114 in the position, the title is
    the leading run and the working text the whole position. *)
Lemma title_stage_plain (position : string) :
  contains split_sep position = false ->
  title_stage position =
  ([], inr (titled_pos position (leading_run position), position)).
Proof.
  intros H. unfold title_stage, split.
  rewrite (split_go_absent _ _ "" H). change ("" ++ position) with position.
  unfold index. cbn [nth_error]. rewrite bind_ret_l, String.eqb_refl. cbn [negb].
  rewrite full_position_parser_match. reflexivity.
Qed.

Lemma scrubBadTitles_titled (position title : string) :
  scrubBadTitles (titled_pos position title) =
  ([], inr (titled_pos position (scrubbed title))).
Proof.
  unfold scrubBadTitles, getitem, titled_pos, scrubbed. map_lookup.
  rewrite bind_ret_l. destruct (contains "no-label" title); [|reflexivity].
  rewrite insert_insert_eq. reflexivity.
Qed.

Lemma clean_position_of_title (position title text : string) :
  title_stage position = ([], inr (titled_pos position title, text)) ->
  clean_position position = ([], inr (cleaned position title text)).
Proof.
  intros H. unfold clean_position. rewrite H.
  change ([], inr (titled_pos position title, text))
    with (ret (A := dict * string) (titled_pos position title, text)).
  rewrite bind_ret_l. cbn [fst snd]. rewrite scrubBadTitles_titled.
  reflexivity.
Qed.

Lemma clean_position_returns (position : string) :
  exists title text,
    title_stage position = ([], inr (titled_pos position title, text)) /\
    clean_position position = ([], inr (cleaned position title text)).
Proof.
  destruct (title_stage_returns position) as (title & text & H).
  exists title, text. split; [exact H | now apply clean_position_of_title].
Qed.

(** The three ways out of the year stage; the text fallback only when the
    search fails. *)
Lemma year_stage_cases (text : string) (d : dict) :
  (exists a b, year_stage text d = <["year_to" := b]> (<["year_from" := a]> d))
  \/ (exists a, year_stage text d = <["year_single" := a]> d)
  \/ (year_stage text d = <["year_text" := VStr text]> d
      /\ search year_parser text = None).
Proof.
  unfold year_stage. destruct (search year_parser text) as [year|] eqn:E; [|auto].
  destruct (year_groups _ _ E) as [H|[H|H]].
  - rewrite H. eauto.
  - destruct (_ && _); [eauto|]. rewrite H. eauto.
  - destruct (_ && _); [eauto|]. destruct (truthy (group year "simple_year")); [eauto|].
    rewrite H. eauto.
Qed.

Lemma location_stage_cases (text : string) (d : dict) :
  (exists a, location_stage text d = <["location" := a]> d)
  \/ (location_stage text d = <["loc_text" := VStr text]> d
      /\ search location_parser text = None).
Proof.
  unfold location_stage. destruct (search location_parser text) as [loc|] eqn:E; [|auto].
  destruct (location_groups _ _ E) as [H|H].
  - rewrite H. eauto.
  - destruct (truthy (group loc "enclosed_location")); [eauto|]. rewrite H. eauto.
Qed.

Lemma year_stage_other (text : string) (d : dict) (key : string) :
  key <> "year_from" -> key <> "year_to" -> key <> "year_single" -> key <> "year_text" ->
  year_stage text d !! key = d !! key.
Proof.
  intros H1 H2 H3 H4.
  destruct (year_stage_cases text d) as [(a & b & ->)|[(a & ->)|[-> _]]];
    repeat (rewrite lookup_insert_ne by congruence); reflexivity.
Qed.

Lemma location_stage_other (text : string) (d : dict) (key : string) :
  key <> "location" -> key <> "loc_text" ->
  location_stage text d !! key = d !! key.
Proof.
  intros H1 H2.
  destruct (location_stage_cases text d) as [(a & ->)|[-> _]];
    repeat (rewrite lookup_insert_ne by congruence); reflexivity.
Qed.

Lemma cleaned_raw_position (position title text : string) :
  cleaned position title text !! "raw_position" = Some (VStr position).
Proof.
  unfold cleaned. rewrite location_stage_other, year_stage_other by discriminate.
  unfold titled_pos. map_lookup. reflexivity.
Qed.

Lemma cleaned_title (position title text : string) :
  cleaned position title text !! "title" = Some (VStr (scrubbed title)).
Proof.
  unfold cleaned. rewrite location_stage_other, year_stage_other by discriminate.
  unfold titled_pos. map_lookup. reflexivity.
Qed.

Lemma has_insert (d : dict) (key : string) (v : value) : has (<[key := v]> d) key.
Proof. unfold has. rewrite lookup_insert_eq. eauto. Qed.

Lemma has_absent (d : dict) (key : string) : d !! key = None -> ~ has d key.
Proof. unfold has. intros -> [x Hx]. discriminate. Qed.

Lemma year_stage_outcome (text : string) (d : dict) :
  d !! "year_single" = None -> d !! "year_from" = None ->
  d !! "year_to" = None -> d !! "year_text" = None ->
  one_year_outcome (year_stage text d).
Proof.
  intros H1 H2 H3 H4. unfold one_year_outcome.
  destruct (year_stage_cases text d) as [(a & b & ->)|[(a & ->)|[-> _]]].
  - right; left. repeat split;
      try (apply has_absent; now map_lookup);
      unfold has; map_lookup; eauto.
  - left. repeat split;
      try (apply has_absent; now map_lookup);
      unfold has; map_lookup; eauto.
  - right; right. repeat split;
      try (apply has_absent; now map_lookup);
      unfold has; map_lookup; eauto.
Qed.

Lemma location_stage_outcome (text : string) (d : dict) :
  d !! "location" = None -> d !! "loc_text" = None ->
  one_location_outcome (location_stage text d).
Proof.
  intros H1 H2. unfold one_location_outcome.
  destruct (location_stage_cases text d) as [(a & ->)|[-> _]].
  - left. split; [apply has_insert | apply has_absent; now map_lookup].
  - right. split; [apply has_absent; now map_lookup | apply has_insert].
Qed.

Lemma cleaned_outcomes (position title text : string) :
  one_year_outcome (cleaned position title text) /\
  one_location_outcome (cleaned position title text).
Proof.
  unfold cleaned. split.
  - assert (H : one_year_outcome (year_stage text (titled_pos position (scrubbed title))))
      by (apply year_stage_outcome; unfold titled_pos; now map_lookup).
    unfold one_year_outcome, has in *.
    rewrite !location_stage_other by discriminate. exact H.
  - apply location_stage_outcome; rewrite year_stage_other by discriminate;
      unfold titled_pos; now map_lookup.
Qed.

End Position.

(** ** The loops *)

Section Loops.

Lemma size_pos_of_lookup (d : dict) (key : string) (v : value) :
  d !! key = Some v -> (0 <? size d)%nat = true.
Proof.
  intros H. apply Nat.ltb_lt. destruct (size d) eqn:E; [|lia].
  apply map_size_empty_iff in E. subst. rewrite lookup_empty in H. discriminate.
Qed.

Lemma position_body_returns (acc : list dict) (position : string) :
  exists d, cleaned_from position d /\
            position_body acc position = ([], inr (acc ++ [d])%list).
Proof.
  destruct (clean_position_returns position) as (title & text & Ht & Hc).
  exists (cleaned position title text). split; [exists title, text; auto|].
  unfold position_body. rewrite Hc.
  change ([], inr (cleaned position title text))
    with (ret (A := dict) (cleaned position title text)).
  rewrite bind_ret_l.
  rewrite (size_pos_of_lookup _ _ _ (cleaned_raw_position position title text)).
  reflexivity.
Qed.

Lemma positions_loop (positions_list : list string) :
  forall acc, exists out,
    Forall2 cleaned_from positions_list out /\
    for_each position_body positions_list acc = ([], inr (acc ++ out)%list).
Proof.
  induction positions_list as [|position l IH]; intros acc.
  - exists []. split; [constructor|]. simpl. now rewrite app_nil_r.
  - destruct (position_body_returns acc position) as (d & Hd & Hb).
    destruct (IH (acc ++ [d])%list) as (out & Hout & Hl).
    exists (d :: out). split; [now constructor|].
    cbn [for_each]. rewrite Hb.
    change ([], inr (acc ++ [d])%list) with (ret (A := list dict) (acc ++ [d])%list).
    rewrite bind_ret_l, Hl, <- app_assoc. reflexivity.
Qed.

Lemma cleanPositions_returns (positions_list : list string) :
  exists out,
    Forall2 cleaned_from positions_list out /\
    cleanPositions positions_list = ([], inr out).
Proof.
  destruct (positions_loop positions_list []) as (out & H & E).
  exists out. split; [exact H | exact E].
Qed.

(** A person whose name does not parse: the lookup of line 50 fails. *)
Lemma person_body_unparsed (clean_data : Clean.dataset) (person : Raw.person) :
  pmatch name_parser (Raw.name person) = None ->
  person_body clean_data person =
  ([Print ("ERROR: Name parser error for " ++ Raw.name person)],
   inl (KeyError "first_name")).
Proof.
  intros H. unfold person_body, cleanPerson, cleanName. rewrite H.
  destruct (cleanPositions_returns (Raw.positions person)) as (out & _ & E).
  rewrite E. reflexivity.
Qed.

(** A person whose name parses goes to [people] or to [errors]. *)
Lemma person_body_parsed (clean_data : Clean.dataset) (person : Raw.person)
    (m : match_obj) :
  pmatch name_parser (Raw.name person) = Some m ->
  exists clean_person,
    person_body clean_data person =
    ([], inr (if truthy (group m "first_name") && truthy (group m "last_name") then
                {| Clean.count := Clean.count clean_data + 1;
                   Clean.people := (Clean.people clean_data ++ [clean_person])%list;
                   Clean.errors := Clean.errors clean_data |}
              else
                {| Clean.count := Clean.count clean_data;
                   Clean.people := Clean.people clean_data;
                   Clean.errors := (Clean.errors clean_data ++ [person])%list |})).
Proof.
  intros H. unfold person_body, cleanPerson, cleanName. rewrite H.
  destruct (cleanPositions_returns (Raw.positions person)) as (out & _ & E).
  rewrite E. rewrite bind_ret_l.
  rewrite (size_pos_of_lookup _ "last_name" (group m "last_name"))
    by apply lookup_insert_eq.
  unfold getitem. map_lookup. rewrite !bind_ret_l.
  change ([], inr out) with (ret (A := list dict) out).
  rewrite !bind_ret_l. cbn [Clean.first_name Clean.last_name fst snd field].
  rewrite bind_ret_l.
  eexists. destruct (truthy (group m "first_name")); cbn [andb].
  - rewrite !bind_ret_l. destruct (truthy (group m "last_name")); reflexivity.
  - rewrite bind_ret_l. reflexivity.
Qed.

(** The loop of [cleanConsularData] saves nothing; when it ends, the
    count has grown with [people] and every person went to [people] or to
    [errors]. *)
Lemma people_loop (raw_people : list Raw.person) :
  forall clean_data,
    saved (fst (for_each person_body raw_people clean_data)) = [] /\
    forall clean_data',
      snd (for_each person_body raw_people clean_data) = inr clean_data' ->
      (Clean.count clean_data' - Z.of_nat (length (Clean.people clean_data'))
       = Clean.count clean_data - Z.of_nat (length (Clean.people clean_data)))%Z /\
      (length (Clean.people clean_data') + length (Clean.errors clean_data')
       = length (Clean.people clean_data) + length (Clean.errors clean_data)
         + length raw_people)%nat.
Proof.
  induction raw_people as [|person l IH]; intros clean_data.
  - split; [reflexivity|]. simpl. intros clean_data' H. inversion H; subst. lia.
  - cbn [for_each].
    destruct (pmatch name_parser (Raw.name person)) as [m|] eqn:E.
    + destruct (person_body_parsed clean_data person m E) as (cp & ->).
      match goal with
      | |- context [bind ([], inr ?st) ?f] =>
          change (bind ([], inr st) f) with (bind (ret st) f); rewrite bind_ret_l;
          destruct (IH st) as [Hs Hr]
      end.
      split; [exact Hs|]. intros clean_data' H. apply Hr in H.
      destruct (_ && _); cbn [Clean.count Clean.people Clean.errors] in H;
        rewrite ?length_app in H; simpl in H; cbn [length]; lia.
    + rewrite (person_body_unparsed clean_data person E).
      split; [reflexivity|]. intros clean_data' H. discriminate H.
Qed.

Lemma saved_app (evs evs' : list event) :
  saved (evs ++ evs') = (saved evs ++ saved evs')%list.
Proof. apply flat_map_app. Qed.

(** What a run hands to [names2json.save]: the dictionary the loop ends
    with, unless the loop raises. *)
Lemma cleanConsularData_saved (data : Raw.dataset) :
  saved (fst (cleanConsularData data)) =
  match snd (for_each person_body (Raw.raw_people data) no_data) with
  | inr clean_data => [clean_data]
  | inl _ => []
  end.
Proof.
  unfold cleanConsularData. fold no_data.
  destruct (people_loop (Raw.raw_people data) no_data) as [Hs _].
  destruct (for_each person_body (Raw.raw_people data) no_data) as [evs [e|clean_data]];
    cbn [fst snd] in *.
  - exact Hs.
  - unfold bind at 1. cbn [fst snd]. rewrite saved_app, Hs.
    destruct (negb _); reflexivity.
Qed.

End Loops.

(** ** The run as a whole *)

Section Run.

(** Whatever is saved has every raw person in [people] or in [errors]. *)
Lemma saved_partition (data : Raw.dataset) (clean_data : Clean.dataset) :
  In clean_data (saved (fst (cleanConsularData data))) ->
  (length (Clean.people clean_data) + length (Clean.errors clean_data)
   = length (Raw.raw_people data))%nat.
Proof.
  rewrite cleanConsularData_saved.
  destruct (people_loop (Raw.raw_people data) no_data) as [_ H].
  destruct (snd (for_each person_body (Raw.raw_people data) no_data))
    as [e|st]; [intros []|].
  intros [<-|[]]. destruct (H st eq_refl) as [_ Hlen]. simpl in Hlen. exact Hlen.
Qed.

Lemma people_loop_completes (raw_people : list Raw.person) :
  Forall (fun person => pmatch name_parser (Raw.name person) <> None) raw_people ->
  forall clean_data, exists clean_data',
    snd (for_each person_body raw_people clean_data) = inr clean_data'.
Proof.
  induction 1 as [|person l Hp Hl IH]; intros clean_data.
  - eexists. reflexivity.
  - cbn [for_each].
    destruct (pmatch name_parser (Raw.name person)) as [m|] eqn:E; [|contradiction].
    destruct (person_body_parsed clean_data person m E) as (cp & ->).
    match goal with
    | |- context [bind ([], inr ?st) ?f] =>
        change (bind ([], inr st) f) with (bind (ret st) f); rewrite bind_ret_l;
        apply (IH st)
    end.
Qed.

(** When every name parses a dataset is saved. *)
Lemma cleanConsularData_completes (data : Raw.dataset) :
  names_parse data ->
  exists clean_data, saved (fst (cleanConsularData data)) = [clean_data].
Proof.
  intros H. rewrite cleanConsularData_saved.
  destruct (people_loop_completes _ H no_data) as (st & ->). eauto.
Qed.

End Run.

(** ** The claims *)

(** C1 (the code departs from the claim).  A person whose name has no comma
    is not appended to [errors]: [cleanPerson] leaves the name keys out, the
    lookup [clean_person['first_name']] of line 50 raises [KeyError], and the
    run ends there without saving anything. *)
Theorem unparsed_name_raises :
  cleanConsularData unparsed_only =
  ([Print "ERROR: Name parser error for SmithJohn"], inl (KeyError "first_name"))
  /\ saved (fst (cleanConsularData unparsed_only)) = [].
Proof. split; vm_compute; reflexivity. Qed.

(** C2 (the code departs from the claim).  [split] of line 114 looks for its
    argument as literal text, so a position with a comma-delimited prefix is
    not split: the title is the prefix, but the working text stays the whole
    position, as the [year_text] of a position without a year shows. *)
Theorem comma_prefix_keeps_whole_text :
  title_stage "Ambassador, Paris (1990-1994)" =
  ([], inr (titled_pos "Ambassador, Paris (1990-1994)" "Ambassador",
            "Ambassador, Paris (1990-1994)"))
  /\ key_of (clean_position "Ambassador, Paris") "title" = Some (VStr "Ambassador")
  /\ key_of (clean_position "Ambassador, Paris") "year_text"
     = Some (VStr "Ambassador, Paris").
Proof. repeat split; vm_compute; reflexivity. Qed.

(** C3 (the code departs from the claim).  The search returns the leftmost
    match, and in "Officer (Berlin)" the open form matches at offset 0: the
    location is "Officer", not the parenthesized "Berlin". *)
Theorem earlier_open_location_wins :
  search location_parser "Officer (Berlin)"
  = Some [("1", "Officer ("); ("open_location", "Officer")]
  /\ key_of (clean_position "Officer (Berlin)") "location" = Some (VStr "Officer")
  /\ key_of (clean_position "Officer (Berlin)") "loc_text" = None.
Proof. repeat split; vm_compute; reflexivity. Qed.

(** C4.  Every dictionary [cleanPositions] returns is the one built for the
    position at its place, and it has exactly one of the year outcomes
    (single year, range with both ends, text) and exactly one of the location
    outcomes (location, text). *)
Theorem one_outcome_per_group (positions_list : list string) :
  exists out,
    cleanPositions positions_list = ([], inr out) /\
    Forall2 (fun position d =>
               clean_position position = ([], inr d) /\
               one_year_outcome d /\ one_location_outcome d)
            positions_list out.
Proof.
  destruct (cleanPositions_returns positions_list) as (out & H & E).
  exists out. split; [exact E|]. clear E.
  induction H as [|position d l out' (title & text & Ht & ->) Hl IH]; constructor.
  - split; [now apply clean_position_of_title | apply cleaned_outcomes].
  - apply IH.
Qed.

(** C5 (the code departs from the claim).  The second person's name does not
    parse: the run raises [KeyError] at line 50 and nothing is saved, so the
    two raw people are in neither collection. *)
Theorem unparsed_person_in_no_collection :
  snd (cleanConsularData parsed_then_unparsed) = inl (KeyError "first_name")
  /\ saved (fst (cleanConsularData parsed_then_unparsed)) = []
  /\ length (Raw.raw_people parsed_then_unparsed) = 2%nat.
Proof. repeat split; vm_compute; reflexivity. Qed.

(** C6.  In a dataset handed to [names2json.save] the count is the length of
    [people], and the count asserted by the input plays no part in it: with
    any other asserted count the same dataset is saved. *)
Theorem count_is_number_of_people (data : Raw.dataset) (clean_data : Clean.dataset) :
  In clean_data (saved (fst (cleanConsularData data))) ->
  Clean.count clean_data = Z.of_nat (length (Clean.people clean_data))
  /\ forall asserted,
       saved (fst (cleanConsularData (with_count asserted data))) = [clean_data].
Proof.
  rewrite cleanConsularData_saved. intros H. split.
  - destruct (people_loop (Raw.raw_people data) no_data) as [_ Hl].
    destruct (snd (for_each person_body (Raw.raw_people data) no_data))
      as [e|st]; [destruct H|].
    destruct H as [<-|[]]. destruct (Hl st eq_refl) as [Hc _]. simpl in Hc. lia.
  - intros asserted. rewrite cleanConsularData_saved. cbn [with_count Raw.raw_people].
    destruct (snd (for_each person_body (Raw.raw_people data) no_data))
      as [e|st]; [destruct H|].
    destruct H as [<-|[]]. reflexivity.
Qed.

Lemma count_is_number_of_people_witness :
  exists clean_data,
    saved (fst (cleanConsularData two_parsed)) = [clean_data]
    /\ Clean.count clean_data = 1%Z
    /\ Clean.count clean_data = Z.of_nat (length (Clean.people clean_data))
    /\ saved (fst (cleanConsularData (with_count 1 two_parsed))) = [clean_data].
Proof.
  destruct (saved (fst (cleanConsularData two_parsed))) as [|clean_data l] eqn:E;
    [vm_compute in E; discriminate E|].
  exists clean_data.
  destruct (count_is_number_of_people two_parsed clean_data) as [Hc Hs].
  - rewrite E. left. reflexivity.
  - assert (El : l = []).
    { vm_compute in E. inversion E. reflexivity. }
    subst l. repeat split; [| exact Hc | apply Hs].
    vm_compute in E. inversion E. reflexivity.
Defined.

(** C7.  The title of the dictionary built for a position is the title the
    title stage extracted, unless that title contains the text "no-label":
    then it is exactly "NO POSITION TITLE AVAILABLE".  The test is the
    literal substring test [contains]. *)
Theorem title_scrubbed (position : string) :
  exists title text d,
    title_stage position = ([], inr (titled_pos position title, text)) /\
    clean_position position = ([], inr d) /\
    d !! "title" =
    Some (VStr (if contains "no-label" title
                then "NO POSITION TITLE AVAILABLE" else title)).
Proof.
  destruct (clean_position_returns position) as (title & text & Ht & Hc).
  exists title, text, (cleaned position title text).
  repeat split; [exact Ht | exact Hc | apply cleaned_title].
Qed.

(** C8.  [cleanPositions] returns, without raising or printing, one
    dictionary per position, in the order of the input, each with the
    position under [raw_position]. *)
Theorem one_entry_per_position (positions_list : list string) :
  exists out,
    cleanPositions positions_list = ([], inr out) /\
    map (fun d : dict => d !! "raw_position") out
    = map (fun position => Some (VStr position)) positions_list.
Proof.
  destruct (cleanPositions_returns positions_list) as (out & H & E).
  exists out. split; [exact E|]. clear E.
  induction H as [|position d l out' (title & text & Ht & ->) Hl IH]; [reflexivity|].
  cbn [map]. rewrite cleaned_raw_position, IH. reflexivity.
Qed.

(** C9, as stated, fails: the position "(Berlin)" has no leading run of
    title characters, and its dictionary has a title, the empty string. *)
Lemma empty_run_title_is_set :
  leading_run "(Berlin)" = ""
  /\ key_of (clean_position "(Berlin)") "title" = Some (VStr "").
Proof. split; vm_compute; reflexivity. Qed.

(** C9, amended.  A position without a leading run of title characters gets
    a dictionary whose title is set; the title is the empty string when the
    position does not contain the literal text that line 114 splits on. *)
Theorem empty_run_title (position : string) :
  leading_run position = "" ->
  exists d,
    clean_position position = ([], inr d) /\
    has d "title" /\
    (contains split_sep position = false -> d !! "title" = Some (VStr "")).
Proof.
  intros Hrun.
  destruct (clean_position_returns position) as (title & text & Ht & Hc).
  exists (cleaned position title text). split; [exact Hc|]. split.
  - unfold has. rewrite cleaned_title. eauto.
  - intros Hsep.
    pose proof (clean_position_of_title _ _ _ (title_stage_plain position Hsep)) as Hc'.
    assert (Ed : cleaned position title text
                 = cleaned position (leading_run position) position) by congruence.
    rewrite Ed, cleaned_title, Hrun. reflexivity.
Qed.

Lemma empty_run_title_witness :
  exists d,
    clean_position "(Berlin)" = ([], inr d) /\ d !! "title" = Some (VStr "").
Proof.
  destruct (empty_run_title "(Berlin)") as (d & Hc & _ & Ht).
  - reflexivity.
  - exists d. split; [exact Hc|]. apply Ht. reflexivity.
Defined.

(** C10.  A match of the year pattern has a range, a simple year or a
    complex year, and a match of the location pattern has an enclosed or an
    open location; so the text fallbacks under a match are never taken, and
    [year_text] and [loc_text] are set only when the search in the working
    text finds nothing. *)
Theorem fallbacks_only_without_match :
  (forall text year,
      search year_parser text = Some year ->
      truthy (group year "year_from") && truthy (group year "year_to")
      || truthy (group year "simple_year")
      || truthy (group year "complex_year") = true)
  /\ (forall text location,
      search location_parser text = Some location ->
      truthy (group location "enclosed_location")
      || truthy (group location "open_location") = true)
  /\ (forall position titled d,
      returned (title_stage position) = Some titled ->
      returned (clean_position position) = Some d ->
      (has d "year_text" -> search year_parser (snd titled) = None)
      /\ (has d "loc_text" -> search location_parser (snd titled) = None)).
Proof.
  split; [|split].
  - intros text year H. destruct (year_groups text year H) as [E|[E|E]]; rewrite E;
      rewrite ?orb_true_r; reflexivity.
  - intros text location H. destruct (location_groups text location H) as [E|E];
      rewrite E; rewrite ?orb_true_r; reflexivity.
  - intros position titled d Ht Hd.
    destruct (clean_position_returns position) as (title & text & Et & Ec).
    unfold returned in Ht, Hd. rewrite Et in Ht. rewrite Ec in Hd.
    cbn [snd] in Ht, Hd. inversion Ht; subst titled. inversion Hd; subst d.
    cbn [snd]. unfold cleaned, has. split; intros Hhas.
    + rewrite location_stage_other in Hhas by discriminate.
      destruct (year_stage_cases text (titled_pos position (scrubbed title)))
        as [(a & b & E)|[(a & E)|[_ E]]]; [| |exact E];
        rewrite E in Hhas; unfold titled_pos in Hhas; revert Hhas; map_lookup;
        intros [x Hx]; discriminate Hx.
    + destruct (location_stage_cases text
                  (year_stage text (titled_pos position (scrubbed title))))
        as [(a & E)|[_ E]]; [|exact E].
      rewrite E in Hhas. rewrite lookup_insert_ne in Hhas by discriminate.
      rewrite year_stage_other in Hhas by discriminate.
      unfold titled_pos in Hhas. revert Hhas. map_lookup.
      intros [x Hx]. discriminate Hx.
Qed.

Lemma fallbacks_only_without_match_witness :
  (truthy (group [("complex_year", "1990")] "year_from")
   && truthy (group [("complex_year", "1990")] "year_to")
   || truthy (group [("complex_year", "1990")] "simple_year")
   || truthy (group [("complex_year", "1990")] "complex_year") = true)
  /\ (truthy (group [("3", "(Berlin)"); ("enclosed_location", "Berlin")] "enclosed_location")
      || truthy (group [("3", "(Berlin)"); ("enclosed_location", "Berlin")] "open_location")
      = true)
  /\ search year_parser "Consul" = None
  /\ search location_parser "" = None.
Proof.
  destruct fallbacks_only_without_match as (Hy & Hl & Hf).
  split; [|split; [|split]].
  - apply (Hy "(1990)"). reflexivity.
  - apply (Hl "(Berlin)"). reflexivity.
  - destruct (Hf "Consul" (titled_pos "Consul" "Consul", "Consul")
                (cleaned "Consul" "Consul" "Consul")) as [H _];
      [reflexivity | reflexivity |].
    apply H. vm_compute. eauto.
  - destruct (Hf "" (titled_pos "" "", "") (cleaned "" "" "")) as [_ H];
      [reflexivity | reflexivity |].
    apply H. vm_compute. eauto.
Defined.

(** * Further properties of the module *)

(** ** The text of a match *)

Section MatchText.

Lemma take_app_length (w t : string) : take (String.length w) (w ++ t) = w.
Proof.
  induction w as [|a w IH]; [now destruct t|].
  change (String a (take (String.length w) (w ++ t)) = String a w). now rewrite IH.
Qed.

Lemma take_length_le (n : nat) (t : string) :
  (n <= String.length t)%nat -> String.length (take n t) = n.
Proof.
  revert t. induction n as [|n IH]; intros t H; [reflexivity|].
  destruct t as [|a t]; simpl in *; [lia|]. rewrite IH; [reflexivity | lia].
Qed.

Lemma take_split (n : nat) (t : string) :
  exists t', t = take n t ++ t'.
Proof.
  revert t. induction n as [|n IH]; intros t.
  - exists t. now destruct t.
  - destruct t as [|a t]; [exists ""; reflexivity|].
    destruct (IH t) as (t' & E). exists t'.
    change (String a t = String a (take n t ++ t')). now rewrite <- E.
Qed.

Lemma take_add (n m : nat) (t u : string) :
  t = take n t ++ u -> (n <= String.length t)%nat ->
  take (n + m) t = take n t ++ take m u.
Proof.
  revert t. induction n as [|n IH]; intros t E Hn.
  - assert (E0 : take 0 t = "") by now destruct t.
    rewrite E0 in *. change ("" ++ u) with u in E. change ("" ++ take m u) with (take m u).
    now subst.
  - destruct t as [|a t]; [simpl in Hn; lia|].
    change (String a (take (n + m) t) = String a (take n t ++ take m u)).
    change (String a t = String a (take n t ++ u)) in E. inversion E as [E'].
    rewrite <- E'. rewrite (IH t); [reflexivity | exact E' | simpl in Hn; lia].
Qed.

Lemma all_chars_app (ok : ascii -> bool) (w w' : string) :
  all_chars ok (w ++ w') = all_chars ok w && all_chars ok w'.
Proof.
  induction w as [|a w IH]; [reflexivity|].
  change (ok a && all_chars ok (w ++ w') = ok a && all_chars ok w && all_chars ok w').
  rewrite IH. now rewrite andb_assoc.
Qed.

Lemma all_chars_ext (f g : ascii -> bool) (w : string) :
  (forall a, f a = g a) -> all_chars f w = all_chars g w.
Proof.
  intros E. induction w as [|a w IH]; [reflexivity|]. simpl. now rewrite E, IH.
Qed.

Lemma append_assoc (u v w : string) : (u ++ v) ++ w = u ++ v ++ w.
Proof.
  induction u as [|a u IH]; [reflexivity|].
  change (String a ((u ++ v) ++ w) = String a (u ++ v ++ w)). now rewrite IH.
Qed.

Lemma consumed_refl (s : mstate) : consumed s s = "".
Proof. unfold consumed. rewrite Nat.sub_diag. now destruct (rest s). Qed.

Lemma reads_refl (s : mstate) : reads s s.
Proof.
  unfold reads, moves. rewrite consumed_refl. repeat split; lia.
Qed.

Lemma consumed_trans (s s1 s2 : mstate) :
  reads s s1 -> reads s1 s2 ->
  consumed s s2 = consumed s s1 ++ consumed s1 s2.
Proof.
  intros [[L1 M1] R1] [[L2 M2] R2]. unfold consumed in *.
  replace (pos s2 - pos s)%nat with ((pos s1 - pos s) + (pos s2 - pos s1))%nat by lia.
  apply take_add; [exact R1 | lia].
Qed.

Lemma reads_trans (s s1 s2 : mstate) : reads s s1 -> reads s1 s2 -> reads s s2.
Proof.
  intros H1 H2. pose proof (consumed_trans _ _ _ H1 H2) as E.
  destruct H1 as [[L1 M1] R1], H2 as [[L2 M2] R2].
  unfold reads, moves. repeat split; try lia.
  rewrite E, append_assoc, <- R2. exact R1.
Qed.

Lemma reads_advance (s : mstate) (a : ascii) (t : string) :
  rest s = String a t ->
  reads s (advance s t) /\ consumed s (advance s t) = String a "".
Proof.
  intros Hr. unfold reads, moves, consumed. simpl. rewrite Hr.
  replace (S (pos s) - pos s)%nat with 1%nat by lia. simpl.
  repeat split; try lia; try reflexivity.
Qed.

(** A match reads a prefix of the rest of the subject. *)
Lemma den_reads (r : regex) : forall s s', den r s s' -> reads s s'.
Proof.
  induction r as [|items|items| | |r1 IH1 r2 IH2|r1 IH1 r2 IH2|q r1 IH1|g r1 IH1];
    intros s s' H; simpl in H.
  - subst. apply reads_refl.
  - destruct H as (a & t & Hr & _ & ->). exact (proj1 (reads_advance s a t Hr)).
  - destruct H as (a & t & Hr & _ & ->). exact (proj1 (reads_advance s a t Hr)).
  - destruct H as [_ ->]. apply reads_refl.
  - destruct H as [_ ->]. apply reads_refl.
  - destruct H as (s1 & H1 & H2). eapply reads_trans; eauto.
  - destruct H as [H|H]; eauto.
  - revert s s' H. apply iter_invariant.
    + apply reads_refl.
    + apply reads_trans.
    + exact IH1.
  - destruct H as (s1 & H1 & ->). apply IH1 in H1. exact H1.
Qed.

(** A match of a pattern within a class consumes characters of the class. *)
Lemma den_within (ok : ascii -> bool) (r : regex) :
  within ok r -> forall s s', den r s s' -> all_chars ok (consumed s s') = true.
Proof.
  induction r as [|items|items| | |r1 IH1 r2 IH2|r1 IH1 r2 IH2|q r1 IH1|g r1 IH1];
    intros W s s' H; simpl in H, W.
  - subst. now rewrite consumed_refl.
  - destruct H as (a & t & Hr & Hin & ->).
    destruct (reads_advance s a t Hr) as [_ ->]. simpl. now rewrite (W a Hin).
  - destruct H as (a & t & Hr & Hin & ->).
    destruct (reads_advance s a t Hr) as [_ ->]. simpl. now rewrite (W a Hin).
  - destruct H as [_ ->]. now rewrite consumed_refl.
  - destruct H as [_ ->]. now rewrite consumed_refl.
  - destruct H as (s1 & H1 & H2). destruct W as [W1 W2].
    rewrite (consumed_trans s s1 s') by (eapply den_reads; eauto).
    rewrite all_chars_app, (IH1 W1 _ _ H1), (IH2 W2 _ _ H2). reflexivity.
  - destruct W as [W1 W2]. destruct H as [H|H]; eauto.
  - assert (P : reads s s' /\ all_chars ok (consumed s s') = true).
    { revert s s' H.
      apply (iter_invariant (den r1)
               (fun s s' => reads s s' /\ all_chars ok (consumed s s') = true)).
      + intros s. split; [apply reads_refl | now rewrite consumed_refl].
      + intros s s1 s2 [R1 A1] [R2 A2]. split; [eapply reads_trans; eauto|].
        rewrite (consumed_trans s s1 s2 R1 R2), all_chars_app, A1, A2. reflexivity.
      + intros s s1 H. split; [eapply den_reads; eauto | eauto]. }
    apply P.
  - destruct H as (s1 & H1 & ->). exact (IH1 W _ _ H1).
Qed.

(** The text of a group after a match: what it held before, or what one of
    the patterns it encloses consumed. *)
Lemma den_group_text (r : regex) :
  forall s s' g, den r s s' ->
  group (caps s') g = group (caps s) g
  \/ exists body sa sb,
       In (g, body) (group_bodies r) /\ den body sa sb /\
       group (caps s') g = VStr (consumed sa sb).
Proof.
  induction r as [|items|items| | |r1 IH1 r2 IH2|r1 IH1 r2 IH2|q r1 IH1|g0 r1 IH1];
    intros s s' g H; simpl in H.
  - subst. auto.
  - destruct H as (a & t & _ & _ & ->). auto.
  - destruct H as (a & t & _ & _ & ->). auto.
  - destruct H as [_ ->]. auto.
  - destruct H as [_ ->]. auto.
  - destruct H as (s1 & H1 & H2).
    destruct (IH2 _ _ g H2) as [E|(body & sa & sb & Hin & Hd & E)].
    + rewrite E. destruct (IH1 _ _ g H1) as [E1|(body & sa & sb & Hin & Hd & E1)];
        [auto|]. right. exists body, sa, sb. simpl. rewrite in_app_iff. auto.
    + right. exists body, sa, sb. simpl. rewrite in_app_iff. auto.
  - destruct H as [H|H].
    + destruct (IH1 _ _ g H) as [E|(body & sa & sb & Hin & Hd & E)]; [auto|].
      right. exists body, sa, sb. simpl. rewrite in_app_iff. auto.
    + destruct (IH2 _ _ g H) as [E|(body & sa & sb & Hin & Hd & E)]; [auto|].
      right. exists body, sa, sb. simpl. rewrite in_app_iff. auto.
  - simpl. induction H as [s|s s1 s2 H1 Hlt H2 IH]; [auto|].
    destruct IH as [E|IH]; [|auto]. rewrite E.
    destruct (IH1 _ _ g H1) as [E1|(body & sa & sb & Hin & Hd & E1)]; [auto|].
    right. exists body, sa, sb. auto.
  - destruct H as (s1 & H1 & ->). simpl.
    destruct (String.eqb g0 g) eqn:Eg.
    + apply String.eqb_eq in Eg. subst g0. right. exists r1, s, s1. auto.
    + destruct (IH1 _ _ g H1) as [E|(body & sa & sb & Hin & Hd & E)]; [auto|].
      right. exists body, sa, sb. auto.
Qed.

End MatchText.

(** ** The matcher finds a match when there is one *)

Section Completeness.

Lemma star_loop_complete (q : quant) (body : cont -> cont)
    (R : mstate -> mstate -> Prop) :
  (forall k s s1, R s s1 -> k s1 <> None -> body k s <> None) ->
  (forall s s1, R s s1 -> moves s s1) ->
  forall s s', iter R s s' ->
  forall k fuel, (String.length (rest s) < fuel)%nat -> k s' <> None ->
  star_loop q body k fuel s <> None.
Proof.
  intros Hbody Hmoves s s' H.
  induction H as [s|s s1 s2 H1 Hlt H2 IH]; intros k fuel Hf Hk;
    (destruct fuel as [|fuel]; [lia|]); cbn [star_loop].
  - destruct q.
    + destruct (body _ s); [discriminate | exact Hk].
    + destruct (k s); [discriminate | contradiction].
  - assert (Hb : body (fun s0 => if (pos s <? pos s0)%nat
                                 then star_loop q body k fuel s0 else None) s <> None).
    { apply (Hbody _ s s1 H1).
      assert (E : (pos s <? pos s1)%nat = true) by (apply Nat.ltb_lt; exact Hlt).
      rewrite E. apply IH; [|exact Hk].
      destruct (Hmoves _ _ H1) as [_ Hm]. lia. }
    destruct q.
    + destruct (body _ s); [discriminate | contradiction].
    + destruct (k s); [discriminate | exact Hb].
Qed.

Lemma rmatch_complete (r : regex) :
  forall k s s', den r s s' -> k s' <> None -> rmatch r k s <> None.
Proof.
  induction r as [|items|items| | |r1 IH1 r2 IH2|r1 IH1 r2 IH2|q r1 IH1|g r1 IH1];
    intros k s s' H Hk; simpl in H; cbn [rmatch].
  - now subst.
  - destruct H as (a & t & Hr & Hin & ->). unfold step_char. now rewrite Hr, Hin.
  - destruct H as (a & t & Hr & Hin & ->). unfold step_char. now rewrite Hr, Hin.
  - destruct H as [Hp ->]. now rewrite Hp.
  - destruct H as [He ->]. now rewrite He.
  - destruct H as (s1 & H1 & H2). apply (IH1 _ _ s1 H1). now apply (IH2 _ _ s').
  - destruct H as [H|H].
    + pose proof (IH1 k _ _ H Hk). destruct (rmatch r1 k s); [discriminate | contradiction].
    + destruct (rmatch r1 k s); [discriminate | now apply (IH2 _ _ s')].
  - apply (star_loop_complete q (rmatch r1) (den r1) IH1 (den_moves r1) s s' H); [lia | exact Hk].
  - destruct H as (s1 & H1 & ->). now apply (IH1 _ _ s1).
Qed.

Lemma match_at_complete (r : regex) (p : nat) (t : string) (s' : mstate) :
  den r {| pos := p; rest := t; caps := [] |} s' -> match_at r p t <> None.
Proof.
  intros H. unfold match_at.
  pose proof (rmatch_complete r Some _ _ H) as Hc.
  destruct (rmatch r Some _); [discriminate | now exfalso; apply Hc].
Qed.

Lemma search_from_here (r : regex) (p : nat) (t : string) :
  match_at r p t <> None -> search_from r p t <> None.
Proof.
  intros H. destruct t; simpl; destruct (match_at r p _); try discriminate; contradiction.
Qed.

(** A match at some offset makes the search succeed. *)
Lemma search_from_complete (r : regex) (t : string) (s' : mstate) :
  forall pre p,
    den r {| pos := p + String.length pre; rest := t; caps := [] |} s' ->
    search_from r p (pre ++ t) <> None.
Proof.
  induction pre as [|a pre IH]; intros p H.
  - change ("" ++ t) with t. apply search_from_here.
    simpl in H. rewrite Nat.add_0_r in H. now apply (match_at_complete _ _ _ s').
  - change (String a pre ++ t) with (String a (pre ++ t)). cbn [search_from].
    destruct (match_at r p _); [discriminate|].
    apply IH. simpl in H. now rewrite Nat.add_succ_r in H.
Qed.

(** The match a search returns starts at some offset of the subject. *)
Lemma search_from_sound_at (r : regex) (t : string) :
  forall p m, search_from r p t = Some m ->
  exists pre t' s',
    t = pre ++ t' /\
    den r {| pos := p + String.length pre; rest := t'; caps := [] |} s' /\
    m = caps s'.
Proof.
  induction t as [|a t IH]; intros p m H; simpl in H.
  - destruct (match_at r p "") as [m'|] eqn:Hm; [|discriminate].
    inversion H; subst. apply match_at_sound in Hm. destruct Hm as (s' & Hd & Hc).
    exists "", "", s'. simpl. rewrite Nat.add_0_r. auto.
  - destruct (match_at r p (String a t)) as [m'|] eqn:Hm.
    + inversion H; subst. apply match_at_sound in Hm. destruct Hm as (s' & Hd & Hc).
      exists "", (String a t), s'. simpl. rewrite Nat.add_0_r. auto.
    + apply IH in H. destruct H as (pre & t' & s' & -> & Hd & Hc).
      exists (String a pre), t', s'. split; [reflexivity|]. split; [|exact Hc].
      simpl. now rewrite Nat.add_succ_r.
Qed.

(** A match of a pattern that needs a character consumes one. *)
Lemma den_needs (ok : ascii -> bool) (r : regex) :
  needs ok r -> forall s s', den r s s' -> no_char ok (consumed s s') = false.
Proof.
  unfold no_char.
  induction r as [|items|items| | |r1 IH1 r2 IH2|r1 IH1 r2 IH2|q r1 IH1|g r1 IH1];
    intros N s s' H; simpl in H, N; try contradiction.
  - destruct H as (a & t & Hr & Hin & ->).
    destruct (reads_advance s a t Hr) as [_ ->]. simpl. now rewrite (N a Hin).
  - destruct H as (a & t & Hr & Hin & ->).
    destruct (reads_advance s a t Hr) as [_ ->]. simpl. now rewrite (N a Hin).
  - destruct H as (s1 & H1 & H2).
    rewrite (consumed_trans s s1 s') by (eapply den_reads; eauto).
    rewrite all_chars_app. destruct N as [N|N].
    + now rewrite (IH1 N _ _ H1).
    + rewrite (IH2 N _ _ H2). apply andb_false_r.
  - destruct N as [N1 N2]. destruct H as [H|H]; eauto.
  - destruct H as (s1 & H1 & ->). exact (IH1 N _ _ H1).
Qed.

(** A subject without a character the pattern needs has no match. *)
Lemma search_needs (ok : ascii -> bool) (r : regex) (text : string) :
  needs ok r -> no_char ok text = true -> search r text = None.
Proof.
  intros N Hno. destruct (search r text) as [m|] eqn:E; [|reflexivity].
  apply search_from_sound_at in E. destruct E as (pre & t' & s' & -> & Hd & _).
  pose proof (den_needs ok r N _ _ Hd) as Hc.
  destruct (den_reads r _ _ Hd) as [_ Hr]. cbn [rest] in Hr.
  unfold no_char in *. rewrite Hr, !all_chars_app, Hc in Hno.
  rewrite andb_false_r in Hno. discriminate.
Qed.

End Completeness.

(** ** The values of the year and location groups *)

Section GroupValues.

Lemma set_has_digit (a : ascii) : set_has [CDigit] a = is_digit a.
Proof. unfold set_has. simpl. apply orb_false_r. Qed.

Lemma set_has_word (a : ascii) : set_has [CWord] a = is_word a.
Proof. unfold set_has. simpl. apply orb_false_r. Qed.

Lemma set_has_char (c a : ascii) : set_has [CChar c] a = Ascii.eqb c a.
Proof. unfold set_has. simpl. apply orb_false_r. Qed.

Lemma rep4_digits (sa sb : mstate) :
  den (Rep 4 digit) sa sb -> four_digits (VStr (consumed sa sb)).
Proof.
  simpl. intros (s1 & (a & t1 & Ha & Da & ->) & s2 & (b & t2 & Hb & Db & ->)
                 & s3 & (c & t3 & Hc & Dc & ->) & s4 & (d & t4 & Hd & Dd & ->) & ->).
  simpl in Hb, Hc, Hd. subst t1 t2 t3.
  unfold consumed. simpl. rewrite Ha.
  replace (S (S (S (S (pos sa)))) - pos sa)%nat with 4%nat by lia. simpl.
  rewrite orb_false_r in Da, Db, Dc, Dd. exists a, b, c, d. auto.
Qed.

Lemma word_run (q : quant) (sa sb : mstate) :
  den (Plus q word) sa sb -> a_word (VStr (consumed sa sb)).
Proof.
  intros H.
  assert (W : within is_word (Plus q word)).
  { unfold Plus, word. cbn [within]. split; intros a Ha; now rewrite set_has_word in Ha. }
  pose proof (den_within is_word _ W _ _ H) as Hall.
  pose proof (den_consumes (Plus q word) eq_refl _ _ H) as Hlt.
  destruct (den_moves _ _ _ H) as [_ Hm].
  assert (T : truthy (VStr (consumed sa sb)) = true)
    by (apply take_truthy; lia).
  destruct (consumed sa sb) as [|a t]; [discriminate|].
  exists a, t. auto.
Qed.

(** A group of the year pattern is [None] or four digits. *)
Lemma year_values (text : string) (year : match_obj) (g : string) :
  search year_parser text = Some year ->
  group year g = VNone \/ four_digits (group year g).
Proof.
  intros H. apply search_from_sound in H. destruct H as (p & t & s' & Hd & ->).
  destruct (den_group_text _ _ _ g Hd) as [E|(body & sa & sb & Hin & Hb & E)];
    [left; exact E|].
  right. rewrite E. apply rep4_digits.
  simpl in Hin. destruct Hin as [Hin|[Hin|[Hin|[Hin|[]]]]]; inversion Hin; subst; exact Hb.
Qed.

(** A location group is [None] or a non-empty run of word characters. *)
Lemma location_values (text : string) (location : match_obj) (g : string) :
  search location_parser text = Some location ->
  g = "open_location" \/ g = "enclosed_location" ->
  group location g = VNone \/ a_word (group location g).
Proof.
  intros H Hg. apply search_from_sound in H. destruct H as (p & t & s' & Hd & ->).
  destruct (den_group_text _ _ _ g Hd) as [E|(body & sa & sb & Hin & Hb & E)];
    [left; exact E|].
  right. rewrite E. apply (word_run Greedy).
  simpl in Hin.
  destruct Hin as [Hin|[Hin|[Hin|[Hin|[]]]]]; inversion Hin; subst;
    try exact Hb; destruct Hg; discriminate.
Qed.

Lemma truthy_not_none (v : value) : truthy v = true -> v <> VNone.
Proof. intros H ->. discriminate. Qed.

(** What the year stage stores under the year keys is four digits. *)
Lemma year_stage_values (text : string) (d : dict) (v : value) :
  d !! "year_single" = None -> d !! "year_from" = None -> d !! "year_to" = None ->
  year_stage text d !! "year_single" = Some v
  \/ year_stage text d !! "year_from" = Some v
  \/ year_stage text d !! "year_to" = Some v ->
  four_digits v.
Proof.
  intros H1 H2 H3. unfold year_stage.
  destruct (search year_parser text) as [year|] eqn:E.
  - assert (V : forall g, truthy (group year g) = true -> four_digits (group year g)).
    { intros g T. destruct (year_values text year g E) as [N|F]; [|exact F].
      now apply truthy_not_none in T. }
    destruct (truthy (group year "year_from") && truthy (group year "year_to")) eqn:Tr.
    + apply andb_true_iff in Tr. destruct Tr as [Tf Tt].
      map_lookup. rewrite H1. intros [K|[K|K]]; inversion K; subst; auto.
    + destruct (truthy (group year "simple_year")) eqn:Ts.
      * map_lookup. rewrite H2, H3. intros [K|[K|K]]; inversion K; subst; auto.
      * destruct (truthy (group year "complex_year")) eqn:Tc.
        -- map_lookup. rewrite H2, H3. intros [K|[K|K]]; inversion K; subst; auto.
        -- map_lookup. rewrite H1, H2, H3. intros [K|[K|K]]; discriminate.
  - map_lookup. rewrite H1, H2, H3. intros [K|[K|K]]; discriminate.
Qed.

(** What the location stage stores under [location] is a word. *)
Lemma location_stage_values (text : string) (d : dict) (v : value) :
  d !! "location" = None ->
  location_stage text d !! "location" = Some v -> a_word v.
Proof.
  intros H1. unfold location_stage.
  destruct (search location_parser text) as [loc|] eqn:E.
  - assert (V : forall g, g = "open_location" \/ g = "enclosed_location" ->
                          truthy (group loc g) = true -> a_word (group loc g)).
    { intros g Hg T. destruct (location_values text loc g E Hg) as [N|F]; [|exact F].
      now apply truthy_not_none in T. }
    destruct (truthy (group loc "enclosed_location")) eqn:Te.
    + map_lookup. intros K; inversion K; subst; auto.
    + destruct (truthy (group loc "open_location")) eqn:To.
      * map_lookup. intros K; inversion K; subst; auto.
      * map_lookup. rewrite H1. discriminate.
  - map_lookup. rewrite H1. discriminate.
Qed.

End GroupValues.

(** ** Further properties of one position *)

Section PositionFacts.

Lemma year_needs_parenthesis : needs (Ascii.eqb "(") year_parser.
Proof.
  unfold year_parser, Lit. cbn [needs].
  repeat split; left; intros a Ha; now rewrite set_has_char in Ha.
Qed.

Lemma year_needs_digit : needs is_digit year_parser.
Proof.
  unfold year_parser, Lit, digit. cbn [needs Rep]. repeat split.
  - right; right; left; left. intros a Ha. now rewrite set_has_digit in Ha.
  - right; right; left; left. intros a Ha. now rewrite set_has_digit in Ha.
  - right; left; left. intros a Ha. now rewrite set_has_digit in Ha.
Qed.

Lemma location_needs_word : needs is_word location_parser.
Proof.
  unfold location_parser, Lit, Plus, word. cbn [needs]. split.
  - right; left; left. intros a Ha. now rewrite set_has_word in Ha.
  - right; left; left. intros a Ha. now rewrite set_has_word in Ha.
Qed.

Lemma key_of_cleaned (position : string) :
  exists title text,
    title_stage position = ([], inr (titled_pos position title, text)) /\
    forall key, key_of (clean_position position) key
                = cleaned position title text !! key.
Proof.
  destruct (clean_position_returns position) as (title & text & Ht & Hc).
  exists title, text. split; [exact Ht|]. intros key.
  unfold key_of, returned. now rewrite Hc.
Qed.

Lemma key_of_plain (position key : string) :
  contains split_sep position = false ->
  key_of (clean_position position) key
  = cleaned position (leading_run position) position !! key.
Proof.
  intros Hp.
  pose proof (clean_position_of_title _ _ _ (title_stage_plain position Hp)) as Hc.
  unfold key_of, returned. now rewrite Hc.
Qed.

Lemma all_chars_leading (ok : ascii -> bool) (t : string) :
  all_chars ok (leading ok t) = true.
Proof.
  induction t as [|a t IH]; [reflexivity|]. simpl.
  destruct (ok a) eqn:E; [|reflexivity]. simpl. now rewrite E.
Qed.

End PositionFacts.

(** X1.  Whatever a cleaned position holds under [year_single], [year_from]
    or [year_to] is a string of exactly four digits. *)
Theorem year_values_are_four_digits (position : string) (v : value) :
  key_of (clean_position position) "year_single" = Some v
  \/ key_of (clean_position position) "year_from" = Some v
  \/ key_of (clean_position position) "year_to" = Some v ->
  four_digits v.
Proof.
  destruct (key_of_cleaned position) as (title & text & _ & K). rewrite !K.
  unfold cleaned. rewrite !location_stage_other by discriminate.
  apply (year_stage_values text (titled_pos position (scrubbed title)));
    unfold titled_pos; now map_lookup.
Qed.

Lemma year_values_are_four_digits_witness :
  four_digits (VStr "1994").
Proof.
  apply (year_values_are_four_digits "Ambassador, Paris (1990-1994)").
  right; right. vm_compute. reflexivity.
Defined.

(** X2.  Whatever a cleaned position holds under [location] is a non-empty
    string of word characters (letters, digits, underscore). *)
Theorem location_is_a_word (position : string) (v : value) :
  key_of (clean_position position) "location" = Some v ->
  a_word v.
Proof.
  destruct (key_of_cleaned position) as (title & text & _ & K). rewrite K.
  unfold cleaned.
  apply (location_stage_values text (year_stage text (titled_pos position (scrubbed title)))).
  rewrite year_stage_other by discriminate. unfold titled_pos. now map_lookup.
Qed.

Lemma location_is_a_word_witness : a_word (VStr "Officer").
Proof.
  apply (location_is_a_word "Officer (Berlin)"). vm_compute. reflexivity.
Defined.

(** X3.  A position that does not contain the literal text of line 114 is
    not split: its title is the leading run of characters other than
    digits, commas and opening parentheses (scrubbed), so the title holds
    none of these characters, and the text fallbacks, when set, hold the
    whole position. *)
Theorem unsplit_position (position : string) :
  contains split_sep position = false ->
  key_of (clean_position position) "title"
  = Some (VStr (scrubbed (leading_run position)))
  /\ all_chars title_char (scrubbed (leading_run position)) = true
  /\ (forall v, key_of (clean_position position) "year_text" = Some v
                \/ key_of (clean_position position) "loc_text" = Some v ->
                v = VStr position).
Proof.
  intros Hp. rewrite !(key_of_plain position _ Hp).
  split; [apply cleaned_title|]. split.
  - unfold scrubbed. destruct (contains "no-label" _); [reflexivity|].
    apply all_chars_leading.
  - intros v [K|K]; unfold cleaned in K.
    + rewrite location_stage_other in K by discriminate.
      destruct (year_stage_cases position
                  (titled_pos position (scrubbed (leading_run position))))
        as [(a & b & E)|[(a & E)|[E _]]]; rewrite E in K; unfold titled_pos in K;
        revert K; map_lookup; intros K; now inversion K.
    + destruct (location_stage_cases position
                  (year_stage position
                     (titled_pos position (scrubbed (leading_run position)))))
        as [(a & E)|[E _]]; rewrite E in K; revert K; map_lookup.
      * rewrite year_stage_other by discriminate. unfold titled_pos. map_lookup.
        discriminate.
      * intros K; now inversion K.
Qed.

Lemma unsplit_position_witness :
  key_of (clean_position "Ambassador, Paris") "title" = Some (VStr "Ambassador")
  /\ VStr "Ambassador, Paris" = VStr "Ambassador, Paris".
Proof.
  destruct (unsplit_position "Ambassador, Paris") as (Ht & _ & Hf).
  - reflexivity.
  - split; [exact Ht|]. apply Hf. left. vm_compute. reflexivity.
Defined.

(** X4.  Years are only taken from parentheses: a position without an
    opening parenthesis, or without a digit, gets [year_text], holding the
    whole position. *)
Theorem year_text_without_parenthesis_or_digit (position : string) :
  contains split_sep position = false ->
  no_char (Ascii.eqb "(") position = true \/ no_char is_digit position = true ->
  key_of (clean_position position) "year_text" = Some (VStr position).
Proof.
  intros Hp Hno. rewrite (key_of_plain position _ Hp).
  assert (E : search year_parser position = None).
  { destruct Hno as [Hno|Hno].
    - exact (search_needs _ _ _ year_needs_parenthesis Hno).
    - exact (search_needs _ _ _ year_needs_digit Hno). }
  unfold cleaned. rewrite location_stage_other by discriminate.
  unfold year_stage. rewrite E. now map_lookup.
Qed.

Lemma year_text_without_parenthesis_or_digit_witness :
  key_of (clean_position "Consul 1990-1994") "year_text"
  = Some (VStr "Consul 1990-1994").
Proof.
  apply (year_text_without_parenthesis_or_digit "Consul 1990-1994").
  - reflexivity.
  - left. reflexivity.
Defined.

(** X5.  A position without a word character and without the literal text
    of line 114 gets [loc_text], holding the whole position. *)
Theorem loc_text_without_word (position : string) :
  contains split_sep position = false ->
  no_char is_word position = true ->
  key_of (clean_position position) "loc_text" = Some (VStr position).
Proof.
  intros Hp Hno. rewrite (key_of_plain position _ Hp).
  unfold cleaned, location_stage.
  rewrite (search_needs _ _ _ location_needs_word Hno). now map_lookup.
Qed.

Lemma loc_text_without_word_witness :
  key_of (clean_position "(--)") "loc_text" = Some (VStr "(--)").
Proof.
  apply (loc_text_without_word "(--)"); reflexivity.
Defined.

(** X6.  A position (without the literal text of line 114) that contains
    four digits between parentheses gets a year: [year_text] is not set, and
    [year_single] or both [year_from] and [year_to] are. *)
Theorem parenthesized_year_is_found
    (pre post position : string) (a b c e : ascii) :
  position = pre ++ String "(" (String a (String b (String c (String e (String ")" post))))) ->
  is_digit a = true -> is_digit b = true -> is_digit c = true -> is_digit e = true ->
  contains split_sep position = false ->
  key_of (clean_position position) "year_text" = None
  /\ (key_of (clean_position position) "year_single" <> None
      \/ (key_of (clean_position position) "year_from" <> None
          /\ key_of (clean_position position) "year_to" <> None)).
Proof.
  intros Epos Da Db Dc De Hp. rewrite !(key_of_plain position _ Hp).
  set (d := cleaned position (leading_run position) position).
  assert (S : search year_parser position <> None).
  { rewrite Epos. unfold search.
    set (t5 := String ")" post).
    set (s0 := {| pos := 0 + String.length pre;
                  rest := String "(" (String a (String b (String c (String e t5))));
                  caps := [] |}).
    set (s1 := advance s0 (String a (String b (String c (String e t5))))).
    set (s2 := advance s1 (String b (String c (String e t5)))).
    set (s3 := advance s2 (String c (String e t5))).
    set (s4 := advance s3 (String e t5)).
    set (s5 := advance s4 t5).
    apply (search_from_complete year_parser _ (advance (set_group "simple_year" s1 s5) post)).
    fold s0. right; right.
    exists s1. split; [exists "("%char, (rest s1); auto|].
    exists (set_group "simple_year" s1 s5). split.
    - exists s5. split; [|reflexivity].
      exists s2. split; [exists a, (rest s2); rewrite set_has_digit; auto|].
      exists s3. split; [exists b, (rest s3); rewrite set_has_digit; auto|].
      exists s4. split; [exists c, (rest s4); rewrite set_has_digit; auto|].
      exists s5. split; [exists e, (rest s5); rewrite set_has_digit; auto|].
      reflexivity.
    - exists ")"%char, post. auto. }
  assert (T : d !! "year_text" = None).
  { unfold d, cleaned. rewrite location_stage_other by discriminate.
    destruct (year_stage_cases position
                (titled_pos position (scrubbed (leading_run position))))
      as [(x & y & E)|[(x & E)|[_ E]]]; [| |contradiction];
      rewrite E; unfold titled_pos; now map_lookup. }
  split; [exact T|].
  assert (O : one_year_outcome d) by apply cleaned_outcomes.
  destruct O as [([x Hs] & _)|[(_ & [x Hf] & [y Ht] & _)|(_ & _ & _ & Hx)]].
  - left. congruence.
  - right. split; congruence.
  - unfold has in Hx. rewrite T in Hx. destruct Hx as [x Hx]. discriminate.
Qed.

Lemma parenthesized_year_is_found_witness :
  key_of (clean_position "Consul (1990)") "year_text" = None.
Proof.
  apply (parenthesized_year_is_found "Consul " "" "Consul (1990)" "1" "9" "9" "0");
    reflexivity.
Defined.

(** ** The name pattern *)

Section NamePattern.

Lemma rmatch_Seq (r1 r2 : regex) (k : cont) (s : mstate) :
  rmatch (Seq r1 r2) k s = rmatch r1 (rmatch r2 k) s.
Proof. reflexivity. Qed.

Lemma rmatch_Set (items : list citem) (k : cont) (s : mstate) :
  rmatch (Set_ items) k s = step_char (set_has items) k s.
Proof. reflexivity. Qed.

(** A greedy run over a negated class, followed by something that fails
    inside the run, stops at the end of the run. *)
Lemma star_class_backtrack (items : list citem) (k : cont) :
  (forall s a t, rest s = String a t -> set_has items a = false -> k s = None) ->
  forall fuel s,
    star_loop Greedy (rmatch (NSet items)) k fuel s =
    k {| pos := pos s + String.length (leading (fun a => negb (set_has items a)) (rest s));
         rest := after (fun a => negb (set_has items a)) (rest s);
         caps := caps s |}
    \/ (fuel <= String.length (rest s))%nat.
Proof.
  intros Hk fuel. induction fuel as [|fuel IH]; intros s; [right; lia|].
  destruct s as [p t c]. cbn [star_loop]. rewrite rmatch_NSet. unfold step_char.
  cbn [rest pos caps].
  destruct t as [|a t]; cbn [leading after String.length].
  - left. now rewrite Nat.add_0_r.
  - destruct (negb (set_has items a)) eqn:Hok; cbn [String.length].
    + assert (Hlt : (p <? pos (advance {| pos := p; rest := String a t; caps := c |} t))%nat
                    = true) by (apply Nat.ltb_lt; simpl; lia).
      rewrite Hlt.
      destruct (IH (advance {| pos := p; rest := String a t; caps := c |} t)) as [E|E].
      * left. rewrite E. cbn [advance pos rest caps]. rewrite Nat.add_succ_r.
        apply negb_true_iff in Hok.
        rewrite (Hk {| pos := p; rest := String a t; caps := c |} a t eq_refl Hok).
        match goal with
        | |- match ?x with _ => _ end = _ => destruct x eqn:Ek; symmetry; exact Ek
        end.
      * right. simpl in E. lia.
    + left. now rewrite Nat.add_0_r.
Qed.

Lemma after_head (ok : ascii -> bool) (t : string) (c : ascii) (t' : string) :
  after ok t = String c t' -> ok c = false.
Proof.
  induction t as [|a t IH]; simpl; [discriminate|].
  destruct (ok a) eqn:E; [exact IH|]. intros H. inversion H; subst. exact E.
Qed.

Lemma after_ext (f g : ascii -> bool) (t : string) :
  (forall a, f a = g a) -> after f t = after g t.
Proof.
  intros E. induction t as [|a t IH]; simpl; [reflexivity|].
  rewrite E, IH. reflexivity.
Qed.

Lemma not_comma_class (a : ascii) :
  negb (set_has [CChar ","] a) = not_comma a.
Proof. rewrite set_has_char. unfold not_comma. now rewrite Ascii.eqb_sym. Qed.

Lemma first_name_class (a : ascii) :
  negb (set_has [CRange "0" "9"; CChar ","] a) = first_name_char a.
Proof.
  unfold first_name_char, set_has, is_digit. cbn [existsb item_has].
  now rewrite (Ascii.eqb_sym "," a), orb_false_r.
Qed.

(** What the name pattern matches, and with which groups. *)
Lemma name_parser_match (name : string) :
  pmatch name_parser name =
  match name_parts name with
  | Some (last, first) => Some [("first_name", first); ("last_name", last)]
  | None => None
  end.
Proof.
  unfold pmatch, match_at, name_parser, name_parts.
  rewrite rmatch_Seq, rmatch_Group, rmatch_Star. cbn [rest].
  set (s0 := {| pos := 0; rest := name; caps := [] |}).
  set (R := Seq (Lit ",") (Seq (Set_ [CSpace])
              (Group "first_name" (Star Greedy (NSet [CRange "0" "9"; CChar ","]))))).
  set (k := fun s1 : mstate => rmatch R Some (set_group "last_name" s0 s1)).
  assert (Hk : forall s a t, rest s = String a t -> set_has [CChar ","] a = false ->
                             k s = None).
  { intros s a t Hr Ha. unfold k, R, Lit. rewrite rmatch_Seq, rmatch_Set.
    unfold step_char. cbn [set_group rest]. now rewrite Hr, Ha. }
  destruct (star_class_backtrack [CChar ","] k Hk (S (String.length name)) s0) as [E|E];
    [|simpl in E; lia].
  rewrite E. clear E Hk. unfold k, s0. cbn [pos rest caps].
  rewrite (leading_ext _ not_comma) by apply not_comma_class.
  rewrite (after_ext _ not_comma) by apply not_comma_class.
  unfold R, Lit. rewrite rmatch_Seq, rmatch_Set. unfold step_char at 1.
  cbn [set_group rest pos caps].
  destruct (after not_comma name) as [|c t1] eqn:Ea; [reflexivity|].
  pose proof (after_head _ _ _ _ Ea) as Hc. unfold not_comma in Hc.
  apply negb_false_iff in Hc. rewrite set_has_char, Ascii.eqb_sym, Hc.
  rewrite rmatch_Seq, rmatch_Set. unfold step_char at 1. cbn [advance rest pos caps].
  destruct t1 as [|w rest']; [reflexivity|].
  assert (Hs : set_has [CSpace] w = is_space w)
    by (unfold set_has; simpl; apply orb_false_r).
  rewrite Hs. destruct (is_space w); [|reflexivity].
  rewrite rmatch_Group, rmatch_Star. cbn [rest].
  match goal with
  | |- context [star_loop Greedy _ ?k1 ?f ?s1] =>
      destruct (star_class_greedy [CRange "0" "9"; CChar ","] k1
                  (fun s H => ltac:(discriminate H)) f s1) as [E|E];
        [|simpl in E; lia]
  end.
  rewrite E. cbn [option_map set_group advance caps pos rest].
  match goal with
  | |- context [take ?n rest'] =>
      replace n
        with (String.length
                (leading (fun a => negb (set_has [CRange "0" "9"; CChar ","] a)) rest'))
        by lia
  end.
  match goal with
  | |- context [take ?n name] =>
      replace n with (String.length (leading not_comma name)) by lia
  end.
  rewrite !take_leading.
  rewrite (leading_ext _ first_name_char) by apply first_name_class.
  reflexivity.
Qed.

(** [cleanName] in terms of the two parts of the name. *)
Lemma cleanName_parts (name : string) :
  cleanName name =
  match name_parts name with
  | Some (last, first) => ([], inr (name_data last first))
  | None => ([Print ("ERROR: Name parser error for " ++ name)], inr ∅)
  end.
Proof.
  unfold cleanName. rewrite name_parser_match.
  destruct (name_parts name) as [[last first]|]; reflexivity.
Qed.

Lemma leading_app_stop (ok : ascii -> bool) (w : string) (c : ascii) (t : string) :
  all_chars ok w = true -> ok c = false ->
  leading ok (w ++ String c t) = w /\ after ok (w ++ String c t) = String c t.
Proof.
  intros Hw Hc. induction w as [|a w IH].
  - change ("" ++ String c t) with (String c t). simpl. now rewrite Hc.
  - change (String a w ++ String c t) with (String a (w ++ String c t)).
    simpl in Hw. apply andb_true_iff in Hw. destruct Hw as [Ha Hw].
    simpl. rewrite Ha. destruct (IH Hw) as [-> ->]. auto.
Qed.

Lemma leading_all (ok : ascii -> bool) (w : string) :
  all_chars ok w = true -> leading ok w = w /\ after ok w = "".
Proof.
  induction w as [|a w IH]; [auto|]. simpl. intros H.
  apply andb_true_iff in H. destruct H as [Ha Hw]. rewrite Ha.
  destruct (IH Hw) as [-> ->]. auto.
Qed.

End NamePattern.

(** X7.  A name made of a last part without comma, a comma, one whitespace
    character and a rest parses: [cleanName] returns, without printing, the
    last part as [last_name] and the rest up to its first digit or comma as
    [first_name]. *)
Theorem cleanName_parsed (last rest' : string) (w : ascii) :
  all_chars not_comma last = true ->
  is_space w = true ->
  cleanName (last ++ String "," (String w rest'))
  = ([], inr (name_data last (leading first_name_char rest'))).
Proof.
  intros Hl Hw. rewrite cleanName_parts. unfold name_parts.
  destruct (leading_app_stop not_comma last "," (String w rest') Hl eq_refl) as [-> ->].
  now rewrite Hw.
Qed.

Lemma cleanName_parsed_witness :
  cleanName "Smith, John 3rd" = ([], inr (name_data "Smith" "John ")).
Proof.
  apply (cleanName_parsed "Smith" "John 3rd" " "); reflexivity.
Defined.

(** X8.  A name without a comma, or whose first comma is the last character
    or is followed by a character that is not whitespace, does not parse:
    [cleanName] prints the error line and returns the empty dictionary. *)
Theorem cleanName_unparsed (last tail : string) :
  all_chars not_comma last = true ->
  tail = "" \/ tail = ","
  \/ (exists c t, tail = String "," (String c t) /\ is_space c = false) ->
  cleanName (last ++ tail)
  = ([Print ("ERROR: Name parser error for " ++ last ++ tail)], inr ∅).
Proof.
  intros Hl Ht. rewrite cleanName_parts. unfold name_parts.
  destruct Ht as [->|[->|(c & t & -> & Hc)]].
  - rewrite append_empty_r. destruct (leading_all not_comma last Hl) as [_ ->].
    reflexivity.
  - destruct (leading_app_stop not_comma last "," "" Hl eq_refl) as [_ ->]. reflexivity.
  - destruct (leading_app_stop not_comma last "," (String c t) Hl eq_refl) as [_ ->].
    now rewrite Hc.
Qed.

Lemma cleanName_unparsed_witness :
  cleanName "Smith,John" = ([Print "ERROR: Name parser error for Smith,John"], inr ∅).
Proof.
  apply (cleanName_unparsed "Smith" ",John"); [reflexivity|].
  right; right. exists "J"%char, "ohn". split; reflexivity.
Defined.

(** ** Persons and the run *)

Section Persons.

Lemma pmatch_name_parts (name : string) :
  pmatch name_parser name = None <-> name_parts name = None.
Proof.
  rewrite name_parser_match. destruct (name_parts name) as [[last first]|];
    split; intros H; try discriminate; reflexivity.
Qed.

Lemma cleanPerson_parts (person : Raw.person) :
  exists positions,
    cleanPositions (Raw.positions person) = ([], inr positions) /\
    cleanPerson person =
    match name_parts (Raw.name person) with
    | Some (last, first) =>
        ([], inr {| Clean.first_name := Some (VStr first);
                    Clean.last_name := Some (VStr last);
                    Clean.positions := positions |})
    | None =>
        ([Print ("ERROR: Name parser error for " ++ Raw.name person)],
         inr {| Clean.first_name := None; Clean.last_name := None;
                Clean.positions := positions |})
    end.
Proof.
  destruct (cleanPositions_returns (Raw.positions person)) as (out & _ & E).
  exists out. split; [exact E|].
  unfold cleanPerson. rewrite cleanName_parts, E.
  destruct (name_parts (Raw.name person)) as [[last first]|].
  - change ([], inr (name_data last first)) with (ret (A := dict) (name_data last first)).
    rewrite bind_ret_l.
    rewrite (size_pos_of_lookup (name_data last first) "last_name" (VStr last))
      by apply lookup_insert_eq.
    unfold getitem, name_data. map_lookup. rewrite !bind_ret_l.
    reflexivity.
  - reflexivity.
Qed.

Lemma person_body_parts (clean_data : Clean.dataset) (person : Raw.person) :
  match name_parts (Raw.name person) with
  | None =>
      person_body clean_data person =
      ([Print ("ERROR: Name parser error for " ++ Raw.name person)],
       inl (KeyError "first_name"))
  | Some _ =>
      exists clean_person,
        cleaned_person person clean_person /\
        person_body clean_data person =
        ([], inr (if named person then
                    {| Clean.count := Clean.count clean_data + 1;
                       Clean.people := (Clean.people clean_data ++ [clean_person])%list;
                       Clean.errors := Clean.errors clean_data |}
                  else
                    {| Clean.count := Clean.count clean_data;
                       Clean.people := Clean.people clean_data;
                       Clean.errors := (Clean.errors clean_data ++ [person])%list |}))
  end.
Proof.
  destruct (cleanPerson_parts person) as (positions & _ & E).
  unfold person_body, cleaned_person, named, returned. rewrite E.
  destruct (name_parts (Raw.name person)) as [[last first]|]; [|reflexivity].
  eexists. split; [reflexivity|].
  destruct first as [|a first], last as [|b last]; reflexivity.
Qed.

(** The loop over people whose names all parse. *)
Lemma people_loop_parts (raw_people : list Raw.person) :
  forallb parses raw_people = true ->
  forall clean_data, exists people,
    Forall2 cleaned_person (List.filter named raw_people) people /\
    for_each person_body raw_people clean_data =
    ([], inr {| Clean.count := Clean.count clean_data + Z.of_nat (length people);
                Clean.people := (Clean.people clean_data ++ people)%list;
                Clean.errors := (Clean.errors clean_data
                                 ++ List.filter (fun p => negb (named p)) raw_people)%list |}).
Proof.
  induction raw_people as [|person l IH]; intros Hall clean_data.
  - exists []. split; [constructor|]. simpl. rewrite !app_nil_r, Z.add_0_r.
    now destruct clean_data.
  - cbn [forallb] in Hall. apply andb_true_iff in Hall. destruct Hall as [Hp Hl].
    pose proof (person_body_parts clean_data person) as Hb.
    unfold parses in Hp. destruct (name_parts (Raw.name person)) as [parts|] eqn:En;
      [|discriminate].
    destruct Hb as (cp & Hcp & Hb). cbn [for_each]. rewrite Hb.
    match goal with
    | |- context [bind ([], inr ?st) ?f] =>
        change (bind ([], inr st) f) with (bind (ret st) f); rewrite bind_ret_l;
        destruct (IH Hl st) as (people & Hf & ->)
    end.
    cbn [List.filter]. destruct (named person); cbn [negb].
    + exists (cp :: people). split; [now constructor|].
      cbn [Clean.count Clean.people Clean.errors]. rewrite <- app_assoc.
      cbn [length app]. do 3 f_equal. lia.
    + exists people. split; [exact Hf|].
      cbn [Clean.count Clean.people Clean.errors]. rewrite <- app_assoc. reflexivity.
Qed.

(** The loop raises at the first name that does not parse. *)
Lemma people_loop_raises (raw_people : list Raw.person) :
  forallb parses raw_people = false ->
  forall clean_data,
    snd (for_each person_body raw_people clean_data) = inl (KeyError "first_name").
Proof.
  induction raw_people as [|person l IH]; intros Hall clean_data; [discriminate|].
  cbn [forallb] in Hall. cbn [for_each].
  pose proof (person_body_parts clean_data person) as Hb.
  unfold parses in Hall. destruct (name_parts (Raw.name person)) as [parts|].
  - destruct Hb as (cp & _ & ->).
    match goal with
    | |- context [bind ([], inr ?st) ?f] =>
        change (bind ([], inr st) f) with (bind (ret st) f); rewrite bind_ret_l
    end.
    apply IH. exact Hall.
  - rewrite Hb. reflexivity.
Qed.

End Persons.

(** X9.  [cleanPerson] never raises.  The name keys of its result are both
    set, to the two parts of the name, or both absent, with the error line
    printed; the positions are those [cleanPositions] returns. *)
Theorem cleanPerson_returns (person : Raw.person) :
  exists events clean_person,
    cleanPerson person = (events, inr clean_person) /\
    cleanPositions (Raw.positions person) = ([], inr (Clean.positions clean_person)) /\
    match name_parts (Raw.name person) with
    | Some (last, first) =>
        events = [] /\
        Clean.first_name clean_person = Some (VStr first) /\
        Clean.last_name clean_person = Some (VStr last)
    | None =>
        events = [Print ("ERROR: Name parser error for " ++ Raw.name person)] /\
        Clean.first_name clean_person = None /\
        Clean.last_name clean_person = None
    end.
Proof.
  destruct (cleanPerson_parts person) as (positions & Hp & ->).
  destruct (name_parts (Raw.name person)) as [[last first]|];
    eexists; eexists; (split; [reflexivity|]); simpl; auto.
Qed.

(** X10.  When the name of some person does not parse, the run raises
    [KeyError] for [first_name] and hands nothing to [names2json.save],
    whatever the other people are. *)
Theorem run_raises_on_unparsed_name (data : Raw.dataset) :
  forallb parses (Raw.raw_people data) = false ->
  snd (cleanConsularData data) = inl (KeyError "first_name")
  /\ saved (fst (cleanConsularData data)) = [].
Proof.
  intros H. pose proof (people_loop_raises _ H no_data) as E.
  split.
  - unfold cleanConsularData. fold no_data. unfold bind at 1. now rewrite E.
  - rewrite cleanConsularData_saved. now rewrite E.
Qed.

Lemma run_raises_on_unparsed_name_witness :
  snd (cleanConsularData parsed_then_unparsed) = inl (KeyError "first_name")
  /\ saved (fst (cleanConsularData parsed_then_unparsed)) = [].
Proof.
  apply (run_raises_on_unparsed_name parsed_then_unparsed). reflexivity.
Defined.

(** X11.  When every name parses, the run returns and its events are the
    success line, the discrepancy line if the count differs from the
    asserted one, one call of [names2json.save] with [output_clean.json],
    and the closing line.  The saved dataset has, in the order of the input,
    the cleaned persons of the people with two non-empty name parts under
    [people] and the other raw people, unchanged, under [errors]. *)
Theorem run_with_parsed_names (data : Raw.dataset) :
  forallb parses (Raw.raw_people data) = true ->
  exists clean_data,
    cleanConsularData data = (closing_events (Raw.count data) clean_data, inr tt) /\
    Forall2 cleaned_person (List.filter named (Raw.raw_people data))
            (Clean.people clean_data) /\
    Clean.errors clean_data
    = List.filter (fun person => negb (named person)) (Raw.raw_people data) /\
    Clean.count clean_data = Z.of_nat (length (Clean.people clean_data)).
Proof.
  intros H. destruct (people_loop_parts _ H no_data) as (people & Hf & E).
  exists {| Clean.count := Z.of_nat (length people);
            Clean.people := people;
            Clean.errors := List.filter (fun person => negb (named person))
                                        (Raw.raw_people data) |}.
  split; [|split; [exact Hf|split; reflexivity]].
  cbn [no_data Clean.count Clean.people Clean.errors app] in E.
  rewrite Z.add_0_l in E.
  unfold cleanConsularData. fold no_data. rewrite E.
  unfold closing_events. unfold bind at 1. cbn [fst snd Clean.count app].
  destruct (Z.of_nat (length people) =? Raw.count data)%Z; reflexivity.
Qed.

Lemma run_with_parsed_names_witness :
  exists clean_data,
    cleanConsularData two_parsed = (closing_events 10 clean_data, inr tt) /\
    Clean.errors clean_data = [ {| Raw.name := ", John"; Raw.positions := [] |} ] /\
    Clean.count clean_data = 1%Z.
Proof.
  destruct (run_with_parsed_names two_parsed) as (cd & E & Hf & He & Hc).
  - reflexivity.
  - exists cd. split; [exact E|]. split; [exact He|].
    rewrite Hc. apply Forall2_length in Hf. rewrite <- Hf. reflexivity.
Defined.

(** ** Scrubbing, lists of positions, the split *)

Section Misc.

Lemma positions_loop_result (positions_list : list string) :
  exists out, forall acc,
    for_each position_body positions_list acc = ([], inr (acc ++ out)%list).
Proof.
  induction positions_list as [|position l IH].
  - exists []. intros acc. simpl. now rewrite app_nil_r.
  - destruct (clean_position_returns position) as (title & text & Ht & Hc).
    destruct IH as (out & IH).
    exists (cleaned position title text :: out). intros acc.
    cbn [for_each]. unfold position_body. rewrite Hc.
    change ([], inr (cleaned position title text))
      with (ret (A := dict) (cleaned position title text)).
    rewrite bind_ret_l.
    rewrite (size_pos_of_lookup _ _ _ (cleaned_raw_position position title text)).
    rewrite bind_ret_l, IH, <- app_assoc. reflexivity.
Qed.

Lemma positions_loop_app (l1 l2 : list string) (out1 : list dict) :
  (forall acc, for_each position_body l1 acc = ([], inr (acc ++ out1)%list)) ->
  forall acc, for_each position_body (l1 ++ l2) acc
              = for_each position_body l2 (acc ++ out1)%list.
Proof.
  revert out1. induction l1 as [|position l1 IH]; intros out1 H acc.
  - specialize (H []). simpl in H. inversion H. cbn [app]. now rewrite app_nil_r.
  - destruct (clean_position_returns position) as (title & text & Ht & Hc).
    destruct (positions_loop_result l1) as (out & Hout).
    assert (Hb : forall acc', position_body acc' position
                              = ret (acc' ++ [cleaned position title text])%list).
    { intros acc'. unfold position_body. rewrite Hc.
      change ([], inr (cleaned position title text))
        with (ret (A := dict) (cleaned position title text)).
      rewrite bind_ret_l.
      now rewrite (size_pos_of_lookup _ _ _ (cleaned_raw_position position title text)). }
    assert (E1 : out1 = cleaned position title text :: out).
    { specialize (H []). cbn [for_each] in H. rewrite Hb, bind_ret_l, Hout in H.
      inversion H. reflexivity. }
    subst out1. cbn [app for_each]. rewrite Hb, bind_ret_l.
    rewrite (IH out Hout). now rewrite <- app_assoc.
Qed.

Lemma string_length_app (u v : string) :
  String.length (u ++ v) = (String.length u + String.length v)%nat.
Proof.
  induction u as [|a u IH]; [reflexivity|].
  change (S (String.length (u ++ v)) = S (String.length u + String.length v)).
  now rewrite IH.
Qed.

Lemma startswith_cons (a : ascii) (p s : string) :
  startswith (String a p) s = true ->
  exists t, s = String a t /\ startswith p t = true.
Proof.
  destruct s as [|b t]; simpl; [discriminate|].
  destruct (Ascii.eqb a b) eqn:E; [|discriminate].
  apply Ascii.eqb_eq in E. subst. eauto.
Qed.

Lemma char_at_sep (s : string) :
  startswith split_sep s = true -> char_at 4 s = Some ","%char.
Proof.
  unfold split_sep. intros H.
  apply startswith_cons in H. destruct H as (t0 & -> & H).
  apply startswith_cons in H. destruct H as (t1 & -> & H).
  apply startswith_cons in H. destruct H as (t2 & -> & H).
  apply startswith_cons in H. destruct H as (t3 & -> & H).
  apply startswith_cons in H. destruct H as (t4 & -> & H).
  reflexivity.
Qed.

Lemma not_comma_neq (c : ascii) : not_comma c = true -> c <> ","%char.
Proof. unfold not_comma. intros H ->. discriminate. Qed.

(** Inside a text without comma that the separator follows, the separator
    does not start. *)
Lemma no_sep_inside (c : ascii) (a b : string) :
  all_chars not_comma (String c a) = true ->
  startswith split_sep (String c a ++ split_sep ++ b) = false.
Proof.
  intros H. destruct (startswith split_sep _) eqn:E; [|reflexivity].
  apply char_at_sep in E. exfalso.
  unfold split_sep in E.
  destruct a as [|c1 [|c2 [|c3 [|c4 a]]]]; cbv [append] in E; simpl in E;
    try discriminate.
  inversion E as [E4]. simpl in H. rewrite !andb_true_iff in H.
  destruct H as (_ & _ & _ & _ & H4 & _).
  apply not_comma_neq in H4. now apply H4.
Qed.

Lemma split_at_sep (a b : string) :
  all_chars not_comma a = true ->
  forall cur, split_go split_sep 0 cur (a ++ split_sep ++ b)
              = (cur ++ a) :: split_go split_sep 0 "" b.
Proof.
  induction a as [|c a IH]; intros Ha cur.
  - rewrite append_empty_r. unfold split_sep. cbv [append]. reflexivity.
  - pose proof (no_sep_inside c a b Ha) as E.
    change (String c a ++ split_sep ++ b) with (String c (a ++ split_sep ++ b)) in *.
    cbn [split_go]. rewrite E.
    simpl in Ha. apply andb_true_iff in Ha. destruct Ha as [_ Ha].
    rewrite (IH Ha). now rewrite append_snoc.
Qed.

End Misc.

(** X12.  [scrubBadTitles] raises [KeyError] on a dictionary without title.
    On a dictionary whose title is a string it returns without printing,
    leaves every other key as it was, and scrubbing its result again changes
    nothing. *)
Theorem scrubBadTitles_again (d : dict) :
  (d !! "title" = None -> scrubBadTitles d = ([], inl (KeyError "title")))
  /\ (forall title, d !! "title" = Some (VStr title) ->
      exists d',
        scrubBadTitles d = ([], inr d') /\
        scrubBadTitles d' = ([], inr d') /\
        d' !! "title" = Some (VStr (scrubbed title)) /\
        forall key, key <> "title" -> d' !! key = d !! key).
Proof.
  split.
  - intros H. unfold scrubBadTitles, getitem. now rewrite H.
  - intros title H. unfold scrubBadTitles at 1, getitem, scrubbed. rewrite H, bind_ret_l.
    destruct (contains "no-label" title) eqn:E.
    + eexists. split; [reflexivity|]. split; [|split].
      * unfold scrubBadTitles, getitem. rewrite lookup_insert_eq, bind_ret_l.
        reflexivity.
      * apply lookup_insert_eq.
      * intros key Hk. now rewrite lookup_insert_ne by congruence.
    + exists d. split; [reflexivity|]. split; [|split; [exact H|reflexivity]].
      unfold scrubBadTitles, getitem. rewrite H, bind_ret_l, E. reflexivity.
Qed.

Lemma scrubBadTitles_again_witness :
  scrubBadTitles (∅ : dict) = ([], inl (KeyError "title"))
  /\ exists d',
       scrubBadTitles (titled_pos "p" "a no-label b") = ([], inr d') /\
       scrubBadTitles d' = ([], inr d') /\
       d' !! "title" = Some (VStr "NO POSITION TITLE AVAILABLE").
Proof.
  split.
  - apply (proj1 (scrubBadTitles_again ∅)). reflexivity.
  - destruct (proj2 (scrubBadTitles_again (titled_pos "p" "a no-label b"))
                "a no-label b") as (d' & H1 & H2 & H3 & _).
    + reflexivity.
    + exists d'. auto.
Defined.

(** X13.  Positions are cleaned independently of each other: the result for
    a concatenation of two lists is the concatenation of the results. *)
Theorem cleanPositions_app (l1 l2 : list string) :
  exists out1 out2,
    cleanPositions l1 = ([], inr out1) /\
    cleanPositions l2 = ([], inr out2) /\
    cleanPositions (l1 ++ l2) = ([], inr (out1 ++ out2)%list).
Proof.
  destruct (positions_loop_result l1) as (out1 & H1).
  destruct (positions_loop_result l2) as (out2 & H2).
  exists out1, out2. unfold cleanPositions.
  rewrite (positions_loop_app l1 l2 out1 H1), H1, !H2. auto.
Qed.

(** X14.  A cleaned position has four keys, or five when it holds a range of
    years. *)
Theorem cleaned_position_size (position : string) :
  exists d,
    clean_position position = ([], inr d) /\
    size d = (if decide (is_Some (d !! "year_from")) then 5 else 4)%nat.
Proof.
  destruct (clean_position_returns position) as (title & text & _ & Hc).
  exists (cleaned position title text). split; [exact Hc|].
  unfold cleaned.
  set (d0 := titled_pos position (scrubbed title)).
  assert (S0 : size d0 = 2%nat).
  { unfold d0, titled_pos.
    rewrite map_size_insert_None by (now map_lookup).
    rewrite map_size_insert_None by apply lookup_empty.
    now rewrite map_size_empty. }
  assert (L0 : forall key, key <> "raw_position" -> key <> "title" -> d0 !! key = None).
  { intros key K1 K2. unfold d0, titled_pos.
    rewrite lookup_insert_ne by congruence. rewrite lookup_insert_ne by congruence.
    apply lookup_empty. }
  rewrite location_stage_other by discriminate.
  set (d1 := year_stage text d0).
  assert (K1 : d1 !! "location" = None).
  { unfold d1. rewrite year_stage_other by discriminate. apply L0; discriminate. }
  assert (K2 : d1 !! "loc_text" = None).
  { unfold d1. rewrite year_stage_other by discriminate. apply L0; discriminate. }
  assert (SL : size (location_stage text d1) = S (size d1)).
  { destruct (location_stage_cases text d1) as [(a & ->)|[-> _]];
      apply map_size_insert_None; assumption. }
  rewrite SL. clear SL K1 K2. unfold d1. clear d1.
  assert (Ys : d0 !! "year_single" = None) by (apply L0; discriminate).
  assert (Yf : d0 !! "year_from" = None) by (apply L0; discriminate).
  assert (Yt : d0 !! "year_to" = None) by (apply L0; discriminate).
  assert (Yx : d0 !! "year_text" = None) by (apply L0; discriminate).
  destruct (year_stage_cases text d0) as [(a & b & ->)|[(a & ->)|[-> _]]].
  - rewrite (map_size_insert_None _ _ (<["year_from" := a]> d0))
      by (rewrite lookup_insert_ne by discriminate; exact Yt).
    rewrite (map_size_insert_None _ _ d0) by exact Yf. rewrite S0.
    rewrite lookup_insert_ne by discriminate. rewrite lookup_insert_eq.
    destruct (decide _) as [|N]; [reflexivity|]. exfalso. apply N. eauto.
  - rewrite (map_size_insert_None _ _ d0) by exact Ys. rewrite S0.
    rewrite lookup_insert_ne by discriminate. rewrite Yf.
    destruct (decide _) as [[x Hx]|N]; [discriminate|reflexivity].
  - rewrite (map_size_insert_None _ _ d0) by exact Yx. rewrite S0.
    rewrite lookup_insert_ne by discriminate. rewrite Yf.
    destruct (decide _) as [[x Hx]|N]; [discriminate|reflexivity].
Qed.

(** X15.  The split of line 114 happens at the literal text of its argument
    only: for a position made of a text without comma, that literal text and
    a rest that does not contain it, the title is the text before (scrubbed)
    and the working text is the rest. *)
Theorem split_at_literal_text (title rest' : string) :
  all_chars not_comma title = true ->
  contains split_sep rest' = false ->
  title_stage (title ++ split_sep ++ rest')
  = ([], inr (titled_pos (title ++ split_sep ++ rest') title, rest'))
  /\ clean_position (title ++ split_sep ++ rest')
     = ([], inr (cleaned (title ++ split_sep ++ rest') title rest')).
Proof.
  intros Ht Hr.
  assert (E : title_stage (title ++ split_sep ++ rest')
              = ([], inr (titled_pos (title ++ split_sep ++ rest') title, rest'))).
  { unfold title_stage, split. rewrite (split_at_sep title rest' Ht "").
    rewrite (split_go_absent _ _ "" Hr).
    change ("" ++ title) with title. change ("" ++ rest') with rest'.
    unfold index. cbn [nth_error]. rewrite bind_ret_l.
    assert (N : String.eqb title (title ++ split_sep ++ rest') = false).
    { apply String.eqb_neq. intros Heq.
      assert (L : String.length title
                  = String.length (title ++ split_sep ++ rest')) by now rewrite <- Heq.
      rewrite !string_length_app in L. unfold split_sep in L. simpl in L. lia. }
    rewrite N. cbn [negb]. rewrite bind_ret_l. reflexivity. }
  split; [exact E | now apply clean_position_of_title].
Qed.

Lemma split_at_literal_text_witness :
  title_stage "ab[^(),]*?,cd" = ([], inr (titled_pos "ab[^(),]*?,cd" "ab", "cd")).
Proof.
  apply (split_at_literal_text "ab" "cd"); reflexivity.
Defined.

(** ** A parenthesized word at the start *)

Section EnclosedFirst.

Lemma search_at_start (r : regex) (text : string) (m : match_obj) :
  match_at r 0 text = Some m -> search r text = Some m.
Proof.
  intros H. unfold search. destruct text; cbn [search_from]; now rewrite H.
Qed.

Lemma den_class_run (items : list citem) (q : quant) (w : string) :
  all_chars (set_has items) w = true ->
  forall p t c,
    den (Star q (Set_ items))
        {| pos := p; rest := w ++ t; caps := c |}
        {| pos := p + String.length w; rest := t; caps := c |}.
Proof.
  induction w as [|a w IH]; intros Hw p t c.
  - change ("" ++ t) with t. simpl. rewrite Nat.add_0_r. constructor.
  - simpl in Hw. apply andb_true_iff in Hw. destruct Hw as [Ha Hw].
    change (String a w ++ t) with (String a (w ++ t)).
    cbn [den]. apply (iter_more _ _ {| pos := S p; rest := w ++ t; caps := c |}).
    + exists a, (w ++ t). auto.
    + simpl. lia.
    + specialize (IH Hw (S p) t c). cbn [den] in IH.
      simpl String.length. now rewrite Nat.add_succ_r.
Qed.

Lemma app_stop_unique (ok : ascii -> bool) (u v : string) (c c' : ascii) (t t' : string) :
  all_chars ok u = true -> all_chars ok v = true ->
  ok c = false -> ok c' = false ->
  u ++ String c t = v ++ String c' t' -> u = v /\ String c t = String c' t'.
Proof.
  intros Hu Hv Hc Hc' E.
  destruct (leading_app_stop ok u c t Hu Hc) as [L1 A1].
  destruct (leading_app_stop ok v c' t' Hv Hc') as [L2 A2].
  rewrite E in L1, A1. split; congruence.
Qed.

(** A subject that starts with a word between parentheses: the location
    pattern matches at offset 0. *)
Lemma enclosed_matches_at_start (a : ascii) (w post : string) :
  all_chars is_word (String a w) = true ->
  match_at location_parser 0 (String "(" (String a w ++ String ")" post)) <> None.
Proof.
  intros Hw. simpl in Hw. apply andb_true_iff in Hw. destruct Hw as [Ha Hw].
  set (text := String "(" (String a w ++ String ")" post)).
  set (s0 := {| pos := 0; rest := text; caps := [] |}).
  set (s1 := advance s0 (String a w ++ String ")" post)).
  set (s2 := {| pos := S (S 0) + String.length w; rest := String ")" post;
                caps := [] |}).
  apply (match_at_complete _ _ _
           (set_group "3" s0 (advance (set_group "enclosed_location" s1 s2) post))).
  fold s0. right. exists (advance (set_group "enclosed_location" s1 s2) post).
  split; [|reflexivity].
  exists s1. split; [exists "("%char, (rest s1); auto|].
  exists (set_group "enclosed_location" s1 s2). split.
  - exists s2. split; [|reflexivity].
    exists (advance s1 (w ++ String ")" post)). split.
    + exists a, (w ++ String ")" post). rewrite set_has_word. auto.
    + apply (den_class_run [CWord] Greedy w).
      rewrite (all_chars_ext _ is_word); [exact Hw | apply set_has_word].
  - exists ")"%char, post. auto.
Qed.

(** The match at offset 0 has the word as enclosed location. *)
Lemma enclosed_at_start (a : ascii) (w post : string) :
  all_chars is_word (String a w) = true ->
  exists location,
    search location_parser (String "(" (String a w ++ String ")" post)) = Some location /\
    group location "enclosed_location" = VStr (String a w).
Proof.
  intros Hw.
  pose proof (enclosed_matches_at_start a w post Hw) as C.
  set (text := String "(" (String a w ++ String ")" post)) in *.
  destruct (match_at location_parser 0 text) as [m|] eqn:Em; [|contradiction].
  exists m. split; [now apply search_at_start|]. clear C.
  apply match_at_sound in Em. destruct Em as (s' & Hd & ->).
  destruct Hd as [Hd|Hd].
  - exfalso. destruct Hd as (sg & Hd & _).
    destruct Hd as (sp & Hplus & so & Hopen & _).
    assert (Esp : sp = {| pos := 0; rest := text; caps := [] |}).
    { destruct Hplus as (sx & Hx & Hit).
      assert (Ex : forall s sy, rest s = text ->
                   den (Alt Bol (Alt (Lit ",") (Set_ [CSpace]))) s sy -> sy = s).
      { intros s sy Hr [[_ ->]|[(b & t & Hb & Hin & _)|(b & t & Hb & Hin & _)]];
          [reflexivity | |]; rewrite Hr in Hb; inversion Hb; subst b; discriminate Hin. }
      apply Ex in Hx; [|reflexivity]. subst sx.
      inversion Hit as [|? s1 ? H1 Hlt _]; [reflexivity|]. subst.
      apply Ex in H1; [|reflexivity]. subst s1. simpl in Hlt. lia. }
    subst sp. destruct Hopen as (sw & Hword & _).
    destruct Hword as (sw1 & (b & t & Hb & Hin & _) & _).
    simpl in Hb. inversion Hb; subst b. discriminate Hin.
  - destruct Hd as (s4 & Hd & ->).
    destruct Hd as (s1 & (b & t & Hb & _ & ->) & s3 & Hg & (c & t' & Hc & Hin & ->)).
    destruct Hg as (s2 & Hrun & ->).
    simpl in Hb. inversion Hb; subst b t. clear Hb.
    cbn [set_group advance caps group]. simpl String.eqb. cbn iota.
    cbn [set_group rest] in Hc.
    rewrite set_has_char in Hin. apply Ascii.eqb_eq in Hin. subst c.
    assert (W : within is_word (Plus Greedy word)).
    { unfold Plus, word. cbn [within]. split; intros x Hx; now rewrite set_has_word in Hx. }
    pose proof (den_within is_word _ W _ _ Hrun) as Hall.
    destruct (den_reads _ _ _ Hrun) as [_ Hr]. cbn [advance rest] in Hr.
    rewrite Hc in Hr.
    destruct (app_stop_unique is_word (String a w) _ ")" ")" post t' Hw Hall
                eq_refl eq_refl Hr) as [Eq _].
    fold (consumed (advance {| pos := 0; rest := text; caps := [] |}
                      (String a w ++ String ")" post)) s2).
    now rewrite <- Eq.
Qed.

End EnclosedFirst.

(** X16.  A position (without the literal text of line 114) that starts with
    a word between parentheses gets that word as location. *)
Theorem leading_enclosed_location (a : ascii) (w post position : string) :
  position = String "(" (String a w ++ String ")" post) ->
  all_chars is_word (String a w) = true ->
  contains split_sep position = false ->
  key_of (clean_position position) "location" = Some (VStr (String a w)).
Proof.
  intros Epos Hw Hp. rewrite (key_of_plain position _ Hp).
  destruct (enclosed_at_start a w post Hw) as (location & E & G).
  rewrite <- Epos in E.
  unfold cleaned, location_stage. rewrite E, G.
  cbn [truthy]. now map_lookup.
Qed.

Lemma leading_enclosed_location_witness :
  key_of (clean_position "(Berlin) Officer 1") "location" = Some (VStr "Berlin").
Proof.
  apply (leading_enclosed_location "B" "erlin" " Officer 1" "(Berlin) Officer 1");
    reflexivity.
Defined.

(** ** Years in their usual place *)

Section YearFormats.

Lemma den_lit (c : ascii) (s s' : mstate) :
  den (Lit c) s s' ->
  rest s = String c (rest s') /\ pos s' = S (pos s) /\ caps s' = caps s.
Proof.
  intros (a & t & Hr & Hin & ->). rewrite set_has_char in Hin.
  apply Ascii.eqb_eq in Hin. subst a. auto.
Qed.

Lemma den_four (g : string) (s s' : mstate) :
  den (four g) s s' ->
  exists a b c e,
    rest s = text4 a b c e ++ rest s' /\ pos s' = (4 + pos s)%nat /\
    caps s' = (g, text4 a b c e) :: caps s /\
    is_digit a = true /\ is_digit b = true /\ is_digit c = true /\ is_digit e = true.
Proof.
  intros (s4 & H & ->). simpl in H.
  destruct H as (s1 & (a & t1 & Ha & Da & ->) & s2 & (b & t2 & Hb & Db & ->)
                 & s3 & (c & t3 & Hc & Dc & ->) & s5 & (e & t4 & He & De & ->) & ->).
  simpl in Hb, Hc, He. subst t1 t2 t3.
  rewrite orb_false_r in Da, Db, Dc, De.
  exists a, b, c, e. unfold set_group. simpl.
  replace (S (S (S (S (pos s)))) - pos s)%nat with 4%nat by lia.
  rewrite Ha. simpl. repeat split; auto.
Qed.

Lemma consumed_length (s s' : mstate) :
  reads s s' -> String.length (consumed s s') = (pos s' - pos s)%nat.
Proof.
  intros [[Hle Hm] _]. unfold consumed. apply take_length_le. lia.
Qed.

(** A run that does not advance leaves the state as it was. *)
Lemma den_star_still (q : quant) (items : list citem) (s s' : mstate) :
  den (Star q (NSet items)) s s' -> pos s' = pos s ->
  rest s' = rest s /\ caps s' = caps s.
Proof.
  intros H Hp. simpl in H. inversion H as [|? s1 ? H1 Hlt Hit]; subst; [auto|].
  exfalso. assert (M : moves s1 s').
  { apply (den_moves (Star q (NSet items))). exact Hit. }
  destruct M as [M _]. lia.
Qed.

Lemma leading_app_ge (ok : ascii -> bool) (u x : string) :
  all_chars ok u = true ->
  (String.length u <= String.length (leading ok (u ++ x)))%nat.
Proof.
  induction u as [|a u IH]; intros H; [simpl; lia|].
  simpl in H. apply andb_true_iff in H. destruct H as [Ha Hu].
  change (String a u ++ x) with (String a (u ++ x)). simpl. rewrite Ha. simpl.
  specialize (IH Hu). lia.
Qed.

Lemma digit_not_close (a : ascii) : is_digit a = true -> not_close a = true.
Proof.
  unfold not_close. destruct (Ascii.eqb a ")") eqn:E; [|reflexivity].
  apply Ascii.eqb_eq in E. subst. discriminate.
Qed.

Lemma within_inside : within not_close inside.
Proof.
  unfold inside. cbn [within]. intros a H. unfold set_has in H.
  cbn [existsb item_has] in H. rewrite orb_false_r in H. apply orb_false_iff in H. destruct H as [_ H].
  unfold not_close. now rewrite Ascii.eqb_sym, H.
Qed.

Lemma within_inside_no_hyphen : within not_close inside_no_hyphen.
Proof.
  unfold inside_no_hyphen. cbn [within]. intros a H. unfold set_has in H.
  cbn [existsb item_has] in H.
  apply orb_false_iff in H. destruct H as [_ H].
  apply orb_false_iff in H. destruct H as [H _].
  unfold not_close. now rewrite Ascii.eqb_sym, H.
Qed.

Lemma within_four (g : string) : within not_close (four g).
Proof.
  unfold four, digit. cbn [within Rep].
  repeat split; intros a H; rewrite set_has_digit in H; now apply digit_not_close.
Qed.

Lemma within_hyphen : within not_close (Lit "-").
Proof.
  unfold Lit. cbn [within]. intros a H. rewrite set_has_char in H.
  apply Ascii.eqb_eq in H. now subst.
Qed.

(** A match within the class of [not_close], from a content without closing
    parenthesis up to a closing parenthesis, consumes the content. *)
Lemma to_first_close (r : regex) (s s' : mstate) (content post t' : string) :
  within not_close r -> den r s s' ->
  rest s = content ++ String ")" post ->
  all_chars not_close content = true ->
  rest s' = String ")" t' ->
  (pos s' = pos s + String.length content)%nat.
Proof.
  intros W H Hr Hc Hr'.
  pose proof (den_within _ _ W _ _ H) as Hall.
  pose proof (den_reads _ _ _ H) as R.
  pose proof (consumed_length _ _ R) as L.
  destruct R as [[Hle _] R]. rewrite Hr, Hr' in R.
  destruct (app_stop_unique not_close content _ ")" ")" post t' Hc Hall
              eq_refl eq_refl R) as [E _].
  rewrite <- E in L. lia.
Qed.

(** The year pattern only matches at an opening parenthesis. *)
Lemma year_starts_with_paren (s s' : mstate) :
  den year_parser s s' -> exists t, rest s = String "(" t.
Proof.
  intros [H|[H|H]]; destruct H as (s1 & H & _); apply den_lit in H;
    destruct H as (H & _); eauto.
Qed.

(** The search passes over a prefix without opening parenthesis. *)
Lemma year_search_skips (pre t : string) (m : match_obj) :
  no_char (Ascii.eqb "(") pre = true ->
  forall p, match_at year_parser (p + String.length pre) t = Some m ->
            search_from year_parser p (pre ++ t) = Some m.
Proof.
  induction pre as [|c pre IH]; intros Hno p H.
  - change ("" ++ t) with t. simpl in H. rewrite Nat.add_0_r in H.
    destruct t; cbn [search_from]; now rewrite H.
  - unfold no_char in Hno. simpl in Hno. apply andb_true_iff in Hno.
    destruct Hno as [Hc Hno].
    change (String c pre ++ t) with (String c (pre ++ t)). cbn [search_from].
    destruct (match_at year_parser p (String c (pre ++ t))) as [m'|] eqn:E.
    + exfalso. apply match_at_sound in E. destruct E as (s' & Hd & _).
      apply year_starts_with_paren in Hd. destruct Hd as (x & Hx).
      simpl in Hx. inversion Hx; subst c. discriminate.
    + apply IH; [exact Hno|]. simpl in H. now rewrite Nat.add_succ_r in H.
Qed.

(** The matches of the year pattern at "(dddd)". *)
Lemma single_year_den (s0 s' : mstate) (a b c e : ascii) (post : string) :
  rest s0 = String "(" (text4 a b c e ++ String ")" post) ->
  caps s0 = [] ->
  is_digit a = true -> is_digit b = true -> is_digit c = true -> is_digit e = true ->
  den year_parser s0 s' ->
  caps s' = [("complex_year", text4 a b c e)]
  \/ caps s' = [("simple_year", text4 a b c e)].
Proof.
  intros Hr Hc Da Db Dc De H.
  assert (Hcontent : all_chars not_close (text4 a b c e) = true).
  { simpl. now rewrite !digit_not_close. }
  destruct H as [H|[H|H]].
  - exfalso.
    destruct H as (s1 & HL & s2 & HS1 & s3 & HG1 & s4 & HS2 & s5 & HH & _).
    apply den_lit in HL. destruct HL as (HL & P1 & C1).
    rewrite Hr in HL. inversion HL as [HL']. symmetry in HL'.
    assert (Hcomp : den (Seq inside (Seq (four "year_from") (Seq inside_no_hyphen (Lit "-"))))
                        s1 s5).
    { exists s2. split; [exact HS1|]. exists s3. split; [exact HG1|].
      exists s4. split; [exact HS2 | exact HH]. }
    assert (W : within not_close
                  (Seq inside (Seq (four "year_from") (Seq inside_no_hyphen (Lit "-"))))).
    { cbn [within]. split; [apply within_inside|]. split; [apply within_four|].
      split; [apply within_inside_no_hyphen | apply within_hyphen]. }
    pose proof (den_within _ _ W _ _ Hcomp) as Hall.
    pose proof (den_reads _ _ _ Hcomp) as R.
    pose proof (consumed_length _ _ R) as L.
    destruct R as [_ R]. rewrite HL' in R.
    pose proof (leading_app_ge not_close _ (rest s5) Hall) as G.
    rewrite <- R in G.
    destruct (leading_app_stop not_close (text4 a b c e) ")" post Hcontent eq_refl)
      as [E _].
    rewrite E in G. simpl in G.
    apply den_moves in HS1. apply den_moves in HS2.
    apply (den_four "year_from") in HG1. destruct HG1 as (? & ? & ? & ? & _ & P3 & _).
    apply den_lit in HH. destruct HH as (_ & P5 & _).
    destruct HS1 as [M1 _], HS2 as [M2 _]. lia.
  - left.
    destruct H as (s1 & HL & s2 & HS1 & s3 & HG & s4 & HS2 & HR).
    apply den_lit in HL. destruct HL as (HL & P1 & C1).
    rewrite Hr in HL. inversion HL as [HL']. symmetry in HL'.
    pose proof HR as HR'. apply den_lit in HR'. destruct HR' as (R4 & P' & C').
    assert (Hcomp : den (Seq inside (Seq (four "complex_year") inside)) s1 s4).
    { exists s2. split; [exact HS1|]. exists s3. split; [exact HG | exact HS2]. }
    assert (W : within not_close (Seq inside (Seq (four "complex_year") inside))).
    { cbn [within]. split; [apply within_inside|].
      split; [apply within_four | apply within_inside]. }
    pose proof (to_first_close _ _ _ _ _ _ W Hcomp HL' Hcontent R4) as P4.
    simpl in P4.
    pose proof (den_moves _ _ _ HS1) as [M1 _].
    pose proof (den_moves _ _ _ HS2) as [M2 _].
    apply (den_four "complex_year") in HG.
    destruct HG as (a' & b' & c' & e' & R2 & P3 & C3 & _).
    assert (E2 : pos s2 = pos s1) by lia.
    assert (E4 : pos s4 = pos s3) by lia.
    destruct (den_star_still _ _ _ _ HS1 E2) as [R2' C2].
    destruct (den_star_still _ _ _ _ HS2 E4) as [R4' C4].
    rewrite C', C4, C3, C2, C1, Hc.
    rewrite R2', HL' in R2. unfold text4 in R2. simpl in R2.
    inversion R2. reflexivity.
  - right.
    destruct H as (s1 & HL & s3 & HG & HR).
    apply den_lit in HL. destruct HL as (HL & P1 & C1).
    rewrite Hr in HL. inversion HL as [HL']. symmetry in HL'.
    apply den_lit in HR. destruct HR as (_ & _ & C').
    apply (den_four "simple_year") in HG.
    destruct HG as (a' & b' & c' & e' & R2 & P3 & C3 & _).
    rewrite C', C3, C1, Hc.
    rewrite HL' in R2. unfold text4 in R2. simpl in R2. inversion R2. reflexivity.
Qed.

End YearFormats.

Section YearFormats2.

Lemma den_four_intro (g : string) (s : mstate) (a b c e : ascii) (t : string) :
  rest s = text4 a b c e ++ t ->
  is_digit a = true -> is_digit b = true -> is_digit c = true -> is_digit e = true ->
  den (four g) s
      {| pos := 4 + pos s; rest := t; caps := (g, text4 a b c e) :: caps s |}.
Proof.
  intros Hr Da Db Dc De. unfold text4 in Hr. cbv [append] in Hr.
  set (s1 := advance s (String b (String c (String e t)))).
  set (s2 := advance s1 (String c (String e t))).
  set (s3 := advance s2 (String e t)).
  set (s4 := advance s3 t).
  exists s4. split.
  - exists s1. split; [exists a, (rest s1); rewrite set_has_digit; auto|].
    exists s2. split; [exists b, (rest s2); rewrite set_has_digit; auto|].
    exists s3. split; [exists c, (rest s3); rewrite set_has_digit; auto|].
    exists s4. split; [exists e, (rest s4); rewrite set_has_digit; auto|].
    reflexivity.
  - unfold set_group. simpl.
    replace (S (S (S (S (pos s)))) - pos s)%nat with 4%nat by lia.
    rewrite Hr. reflexivity.
Qed.

Lemma den_lit_intro (c : ascii) (s : mstate) (t : string) :
  rest s = String c t -> den (Lit c) s (advance s t).
Proof.
  intros Hr. exists c, t. rewrite set_has_char, Ascii.eqb_refl. auto.
Qed.

(** "(dddd)" after a prefix without opening parenthesis: what the search
    returns. *)
Lemma single_year_search (pre post : string) (a b c e : ascii) :
  no_char (Ascii.eqb "(") pre = true ->
  is_digit a = true -> is_digit b = true -> is_digit c = true -> is_digit e = true ->
  search year_parser (pre ++ String "(" (text4 a b c e ++ String ")" post))
  = Some [("complex_year", text4 a b c e)]
  \/ search year_parser (pre ++ String "(" (text4 a b c e ++ String ")" post))
     = Some [("simple_year", text4 a b c e)].
Proof.
  intros Hno Da Db Dc De.
  set (t := String "(" (text4 a b c e ++ String ")" post)).
  set (s0 := {| pos := 0 + String.length pre; rest := t; caps := [] |}).
  assert (C : match_at year_parser (0 + String.length pre) t <> None).
  { set (s1 := advance s0 (text4 a b c e ++ String ")" post)).
    set (s2 := {| pos := 4 + pos s1; rest := String ")" post;
                  caps := ("simple_year", text4 a b c e) :: caps s1 |}).
    apply (match_at_complete _ _ _ (advance s2 post)). fold s0.
    right; right. exists s1. split; [now apply den_lit_intro|].
    exists s2. split; [now apply (den_four_intro "simple_year") | now apply den_lit_intro]. }
  destruct (match_at year_parser (0 + String.length pre) t) as [m|] eqn:Em;
    [|contradiction].
  unfold search. rewrite (year_search_skips pre t m Hno 0 Em).
  apply match_at_sound in Em. destruct Em as (s' & Hd & ->).
  destruct (single_year_den s0 s' a b c e post eq_refl eq_refl Da Db Dc De Hd) as [->| ->];
    auto.
Qed.

(** The matches of the first alternative of the year pattern at
    "(dddd-dddd)". *)
Lemma year_range_den (s0 s' : mstate) (a b c e a2 b2 c2 e2 : ascii) (post : string) :
  rest s0 = String "(" (text4 a b c e ++ String "-" (text4 a2 b2 c2 e2 ++ String ")" post)) ->
  caps s0 = [] ->
  is_digit a = true -> is_digit b = true -> is_digit c = true -> is_digit e = true ->
  is_digit a2 = true -> is_digit b2 = true -> is_digit c2 = true -> is_digit e2 = true ->
  den (Seq (Lit "(") (Seq inside (Seq (four "year_from") (Seq inside_no_hyphen
         (Seq (Lit "-") (Seq inside_no_hyphen (Seq (four "year_to")
         (Seq inside (Lit ")")))))))))
      s0 s' ->
  caps s' = [("year_to", text4 a2 b2 c2 e2); ("year_from", text4 a b c e)].
Proof.
  intros Hr Hc Da Db Dc De Da2 Db2 Dc2 De2 H.
  destruct H as (s1 & HL & s2 & HS1 & s3 & HG1 & s4 & HS2 & s5 & HH & s6 & HS3
                 & s7 & HG2 & s8 & HS4 & HR).
  apply den_lit in HL. destruct HL as (HL & P1 & C1).
  rewrite Hr in HL. inversion HL as [HL']. symmetry in HL'. clear HL.
  pose proof HR as HR'. apply den_lit in HR'. destruct HR' as (R8 & P' & C').
  set (content := text4 a b c e ++ String "-" (text4 a2 b2 c2 e2)).
  assert (Hcontent : all_chars not_close content = true).
  { unfold content, text4. cbv [append]. simpl.
    now rewrite !digit_not_close. }
  assert (HL'' : rest s1 = content ++ String ")" post).
  { rewrite HL'. unfold content, text4. reflexivity. }
  assert (Hcomp : den (Seq inside (Seq (four "year_from") (Seq inside_no_hyphen
                     (Seq (Lit "-") (Seq inside_no_hyphen (Seq (four "year_to") inside))))))
                      s1 s8).
  { exists s2. split; [exact HS1|]. exists s3. split; [exact HG1|].
    exists s4. split; [exact HS2|]. exists s5. split; [exact HH|].
    exists s6. split; [exact HS3|]. exists s7. split; [exact HG2 | exact HS4]. }
  assert (W : within not_close
                (Seq inside (Seq (four "year_from") (Seq inside_no_hyphen
                   (Seq (Lit "-") (Seq inside_no_hyphen (Seq (four "year_to") inside))))))).
  { cbn [within]. split; [apply within_inside|]. split; [apply within_four|].
    split; [apply within_inside_no_hyphen|]. split; [apply within_hyphen|].
    split; [apply within_inside_no_hyphen|]. split; [apply within_four | apply within_inside]. }
  pose proof (to_first_close _ _ _ _ _ _ W Hcomp HL'' Hcontent R8) as P8.
  unfold content, text4 in P8. cbv [append] in P8. simpl in P8.
  pose proof (den_moves _ _ _ HS1) as [M1 _].
  pose proof (den_moves _ _ _ HS2) as [M2 _].
  pose proof (den_moves _ _ _ HS3) as [M3 _].
  pose proof (den_moves _ _ _ HS4) as [M4 _].
  apply (den_four "year_from") in HG1.
  destruct HG1 as (x1 & x2 & x3 & x4 & R2 & P3 & C3 & _).
  apply (den_four "year_to") in HG2.
  destruct HG2 as (y1 & y2 & y3 & y4 & R6 & P7 & C7 & _).
  apply den_lit in HH. destruct HH as (R4 & P5 & C5).
  assert (E2 : pos s2 = pos s1) by lia.
  assert (E4 : pos s4 = pos s3) by lia.
  assert (E6 : pos s6 = pos s5) by lia.
  assert (E8 : pos s8 = pos s7) by lia.
  destruct (den_star_still _ _ _ _ HS1 E2) as [R2' C2].
  destruct (den_star_still _ _ _ _ HS2 E4) as [R4' C4].
  destruct (den_star_still _ _ _ _ HS3 E6) as [R6' C6].
  destruct (den_star_still _ _ _ _ HS4 E8) as [R8' C8].
  rewrite R2', HL' in R2. unfold text4 in R2. cbv [append] in R2.
  inversion R2 as [[X1 X2 X3 X4 R3]]. subst x1 x2 x3 x4.
  rewrite R4', <- R3 in R4. inversion R4 as [R5].
  rewrite R6', <- R5 in R6. unfold text4 in R6. cbv [append] in R6.
  inversion R6 as [[Y1 Y2 Y3 Y4 R7]]. subst y1 y2 y3 y4.
  rewrite C', C8, C7, C6, C5, C4, C3, C2, C1, Hc. reflexivity.
Qed.

(** "(dddd-dddd)" after a prefix without opening parenthesis: what the
    search returns. *)
Lemma year_range_search (pre post : string) (a b c e a2 b2 c2 e2 : ascii) :
  no_char (Ascii.eqb "(") pre = true ->
  is_digit a = true -> is_digit b = true -> is_digit c = true -> is_digit e = true ->
  is_digit a2 = true -> is_digit b2 = true -> is_digit c2 = true -> is_digit e2 = true ->
  search year_parser
    (pre ++ String "(" (text4 a b c e ++ String "-" (text4 a2 b2 c2 e2 ++ String ")" post)))
  = Some [("year_to", text4 a2 b2 c2 e2); ("year_from", text4 a b c e)].
Proof.
  intros Hno Da Db Dc De Da2 Db2 Dc2 De2.
  set (t := String "(" (text4 a b c e ++ String "-" (text4 a2 b2 c2 e2 ++ String ")" post))).
  set (s0 := {| pos := 0 + String.length pre; rest := t; caps := [] |}).
  set (A1 := Seq (Lit "(") (Seq inside (Seq (four "year_from") (Seq inside_no_hyphen
               (Seq (Lit "-") (Seq inside_no_hyphen (Seq (four "year_to")
               (Seq inside (Lit ")"))))))))).
  assert (D : exists sf, den A1 s0 sf).
  { set (s1 := advance s0 (text4 a b c e ++ String "-" (text4 a2 b2 c2 e2 ++ String ")" post))).
    set (s3 := {| pos := 4 + pos s1;
                  rest := String "-" (text4 a2 b2 c2 e2 ++ String ")" post);
                  caps := ("year_from", text4 a b c e) :: caps s1 |}).
    set (s5 := advance s3 (text4 a2 b2 c2 e2 ++ String ")" post)).
    set (s7 := {| pos := 4 + pos s5; rest := String ")" post;
                  caps := ("year_to", text4 a2 b2 c2 e2) :: caps s5 |}).
    exists (advance s7 post).
    exists s1. split; [now apply den_lit_intro|].
    exists s1. split; [constructor|].
    exists s3. split; [now apply (den_four_intro "year_from")|].
    exists s3. split; [constructor|].
    exists s5. split; [now apply den_lit_intro|].
    exists s5. split; [constructor|].
    exists s7. split; [now apply (den_four_intro "year_to")|].
    exists s7. split; [constructor | now apply den_lit_intro]. }
  destruct D as (sf & D).
  assert (E : exists res, rmatch year_parser Some s0 = Some res /\ den A1 s0 res).
  { pose proof (rmatch_complete A1 Some s0 sf D ltac:(discriminate)) as C.
    unfold year_parser. fold inside inside_no_hyphen (four "year_from") (four "year_to").
    fold A1. cbn [rmatch].
    destruct (rmatch A1 Some s0) as [res|] eqn:E1; [|contradiction].
    exists res. split; [reflexivity|].
    apply rmatch_sound in E1. destruct E1 as (s'' & Hd & Hs). now inversion Hs; subst. }
  destruct E as (res & Em & Hd).
  assert (Em' : match_at year_parser (0 + String.length pre) t = Some (caps res)).
  { unfold match_at. fold s0. now rewrite Em. }
  unfold search. rewrite (year_search_skips pre t _ Hno 0 Em').
  f_equal.
  apply (year_range_den s0 res a b c e a2 b2 c2 e2 post); auto.
Qed.

End YearFormats2.

(** X17.  A position (without the literal text of line 114) whose first
    opening parenthesis opens a group of exactly four digits gets these
    digits as [year_single]. *)
Theorem single_year_value (pre post position : string) (a b c e : ascii) :
  position = pre ++ String "(" (text4 a b c e ++ String ")" post) ->
  no_char (Ascii.eqb "(") pre = true ->
  is_digit a = true -> is_digit b = true -> is_digit c = true -> is_digit e = true ->
  contains split_sep position = false ->
  key_of (clean_position position) "year_single" = Some (VStr (text4 a b c e)).
Proof.
  intros Epos Hno Da Db Dc De Hp. rewrite (key_of_plain position _ Hp).
  unfold cleaned. rewrite location_stage_other by discriminate.
  assert (S : search year_parser position = Some [("complex_year", text4 a b c e)]
              \/ search year_parser position = Some [("simple_year", text4 a b c e)])
    by (rewrite Epos; now apply single_year_search).
  unfold year_stage.
  destruct S as [-> | ->]; cbn [group]; simpl String.eqb; cbn [truthy andb text4];
    now map_lookup.
Qed.

Lemma single_year_value_witness :
  key_of (clean_position "Consul, Rome (1950)") "year_single" = Some (VStr "1950").
Proof.
  apply (single_year_value "Consul, Rome " "" "Consul, Rome (1950)" "1" "9" "5" "0");
    reflexivity.
Defined.

(** X18.  A position (without the literal text of line 114) whose first
    opening parenthesis opens two groups of four digits joined by a hyphen
    gets them as [year_from] and [year_to]. *)
Theorem year_range_values
    (pre post position : string) (a b c e a2 b2 c2 e2 : ascii) :
  position
  = pre ++ String "(" (text4 a b c e ++ String "-" (text4 a2 b2 c2 e2 ++ String ")" post)) ->
  no_char (Ascii.eqb "(") pre = true ->
  is_digit a = true -> is_digit b = true -> is_digit c = true -> is_digit e = true ->
  is_digit a2 = true -> is_digit b2 = true -> is_digit c2 = true -> is_digit e2 = true ->
  contains split_sep position = false ->
  key_of (clean_position position) "year_from" = Some (VStr (text4 a b c e))
  /\ key_of (clean_position position) "year_to" = Some (VStr (text4 a2 b2 c2 e2)).
Proof.
  intros Epos Hno Da Db Dc De Da2 Db2 Dc2 De2 Hp.
  rewrite !(key_of_plain position _ Hp).
  unfold cleaned. rewrite !location_stage_other by discriminate.
  assert (S : search year_parser position
              = Some [("year_to", text4 a2 b2 c2 e2); ("year_from", text4 a b c e)])
    by (rewrite Epos; now apply year_range_search).
  unfold year_stage. rewrite S.
  cbn [group]. simpl String.eqb. cbn [truthy andb text4].
  split; now map_lookup.
Qed.

Lemma year_range_values_witness :
  key_of (clean_position "Ambassador, Paris (1990-1994)") "year_from" = Some (VStr "1990")
  /\ key_of (clean_position "Ambassador, Paris (1990-1994)") "year_to" = Some (VStr "1994").
Proof.
  apply (year_range_values "Ambassador, Paris " "" "Ambassador, Paris (1990-1994)"
           "1" "9" "9" "0" "1" "9" "9" "4");
    reflexivity.
Defined.

(** ** The location pattern as a scan *)

Section LocationScan.

Lemma space_not_word (c : ascii) : is_space c = true -> is_word c = false.
Proof.
  destruct c as [[] [] [] [] [] [] [] []]; vm_compute; intros H;
    first [reflexivity | discriminate H].
Qed.

Lemma word_not_sep (c : ascii) : is_word c = true -> sep_char c = false.
Proof.
  destruct c as [[] [] [] [] [] [] [] []]; vm_compute; intros H;
    first [reflexivity | discriminate H].
Qed.

Lemma leading_after (ok : ascii -> bool) (t : string) :
  leading ok t ++ after ok t = t.
Proof.
  induction t as [|a t IH]; [reflexivity|]. simpl. destruct (ok a); [|reflexivity].
  change (String a (leading ok t ++ after ok t) = String a t). now rewrite IH.
Qed.

Lemma leading_app_all (ok : ascii -> bool) (u t : string) :
  all_chars ok u = true ->
  leading ok (u ++ t) = u ++ leading ok t /\ after ok (u ++ t) = after ok t.
Proof.
  induction u as [|a u IH]; intros H; [auto|].
  simpl in H. apply andb_true_iff in H. destruct H as [Ha Hu].
  change (String a u ++ t) with (String a (u ++ t)). simpl. rewrite Ha.
  destruct (IH Hu) as [-> ->]. auto.
Qed.

Lemma after_of_no_leading (ok : ascii -> bool) (t : string) :
  leading ok t = "" -> after ok t = t.
Proof.
  destruct t as [|a t]; [reflexivity|]. simpl. destruct (ok a); [discriminate|reflexivity].
Qed.

Lemma nonempty_length (s : string) : (0 < String.length s)%nat -> nonempty s = true.
Proof. destruct s; simpl; [lia | reflexivity]. Qed.

Lemma boundary_no_word (x : string) : boundary x = true -> leading is_word x = "".
Proof.
  unfold boundary. intros H. apply orb_true_iff in H. destruct H as [H|H].
  - destruct x as [|a [|b y]]; simpl in H; try discriminate; [reflexivity|].
    apply Ascii.eqb_eq in H. subst a. reflexivity.
  - destruct x as [|c y]; [discriminate|]. apply andb_true_iff in H.
    destruct H as [H _]. simpl. now rewrite (space_not_word c H).
Qed.

Lemma den_after_space (sc sd : mstate) :
  den after_space sc sd -> boundary2 (rest sc) = true /\ caps sd = caps sc.
Proof.
  unfold boundary2.
  intros [H|[H|[[H ->]|(a & t & Hr & Hin & ->)]]].
  - apply den_lit in H. destruct H as (Hr & _ & Hc). rewrite Hr. simpl.
    split; [apply orb_true_r | exact Hc].
  - apply den_lit in H. destruct H as (Hr & _ & Hc). rewrite Hr. simpl.
    split; [apply orb_true_r | exact Hc].
  - rewrite H. auto.
  - rewrite Hr. rewrite set_has_digit in Hin. rewrite Hin.
    split; [now rewrite !orb_true_r | reflexivity].
Qed.

Lemma den_after_word (sb sc : mstate) :
  den after_word sb sc ->
  (at_end (rest sb) = true /\ sc = sb)
  \/ (exists c, rest sb = String c (rest sc) /\ is_space c = true /\ caps sc = caps sb).
Proof.
  intros [[H ->]|[H|[(a & t & Hr & Hin & ->)|H]]].
  - auto.
  - right. apply den_lit in H. destruct H as (Hr & _ & Hc). eexists. split; [exact Hr|].
    split; [reflexivity | exact Hc].
  - right. exists a. unfold set_has in Hin. simpl in Hin. rewrite orb_false_r in Hin. auto.
  - right. apply den_lit in H. destruct H as (Hr & _ & Hc). eexists. split; [exact Hr|].
    split; [reflexivity | exact Hc].
Qed.

Lemma den_boundary (sb sc sd : mstate) :
  den after_word sb sc -> den after_space sc sd ->
  boundary (rest sb) = true /\ caps sd = caps sb.
Proof.
  intros H1 H2. apply den_after_space in H2. destruct H2 as [B2 C2].
  apply den_after_word in H1. unfold boundary.
  destruct H1 as [[E ->]|(c & Hr & Hs & C1)].
  - rewrite E. auto.
  - rewrite Hr, Hs, B2. split; [apply orb_true_r | congruence].
Qed.

Lemma within_gap : within sep_char (Plus Lazy gap_item).
Proof.
  assert (W : within sep_char gap_item).
  { unfold gap_item, Lit. cbn [within]. split; [exact I|]. split; intros a H.
    - rewrite set_has_char in H. apply Ascii.eqb_eq in H. subst. reflexivity.
    - unfold set_has in H. cbn [existsb item_has] in H. rewrite orb_false_r in H.
      unfold sep_char. rewrite H. apply orb_true_r. }
  unfold Plus. cbn [within]. auto.
Qed.

Lemma den_gap_start (s sa : mstate) :
  den (Plus Lazy gap_item) s sa ->
  (pos s =? 0)%nat || nonempty (consumed s sa) = true.
Proof.
  intros H. pose proof (consumed_length _ _ (den_reads _ _ _ H)) as L.
  destruct H as (sx & HX & Hit).
  assert (M : moves sx sa) by (apply (den_moves (Star Lazy gap_item)); exact Hit).
  destruct M as [M _].
  destruct HX as [[Hp ->]|[HX|(a & t & Hr & Hin & ->)]].
  - rewrite Hp. reflexivity.
  - apply den_lit in HX. destruct HX as (_ & Hp & _).
    rewrite nonempty_length; [apply orb_true_r | lia].
  - simpl in M. rewrite nonempty_length; [apply orb_true_r | lia].
Qed.

(** A match of the open form is the open form of the scan. *)
Lemma open_form_sound (s s' : mstate) :
  den open_form s s' ->
  exists w,
    open_at (pos s =? 0)%nat (rest s) = Some w /\ nonempty w = true /\
    group (caps s') "open_location" = VStr w /\
    group (caps s') "enclosed_location" = group (caps s) "enclosed_location".
Proof.
  intros (s1 & Hbody & ->).
  destruct Hbody as (sa & HG & sb & Hopen & sc & HB1 & HB2).
  destruct Hopen as (sw & Hplus & ->).
  pose proof (den_within _ _ within_gap _ _ HG) as Hgap.
  destruct (den_reads _ _ _ HG) as [_ Rg].
  pose proof (den_gap_start _ _ HG) as Hstart.
  destruct (word_run _ _ _ Hplus) as (a & w' & Ew & Hw). inversion Ew as [Ew'].
  destruct (den_reads _ _ _ Hplus) as [_ Rw]. rewrite Ew' in Rw.
  destruct (den_boundary _ _ _ HB1 HB2) as [Hb Hc]. cbn [set_group rest caps] in Hb, Hc.
  exists (String a w'). split; [|split; [reflexivity|split]].
  - unfold open_at.
    assert (Ha : sep_char a = false).
    { apply word_not_sep. simpl in Hw. now apply andb_true_iff in Hw. }
    change (String a w' ++ rest sw) with (String a (w' ++ rest sw)) in Rw.
    rewrite Rw in Rg.
    destruct (leading_app_stop sep_char (consumed s sa) a (w' ++ rest sw) Hgap Ha)
      as [L1 A1].
    rewrite Rg, L1, A1, Hstart.
    change (String a (w' ++ rest sw)) with (String a w' ++ rest sw).
    destruct (leading_app_all is_word (String a w') (rest sw) Hw) as [L2 A2].
    rewrite L2, A2, (boundary_no_word _ Hb), append_empty_r.
    rewrite (after_of_no_leading _ _ (boundary_no_word _ Hb)), Hb. reflexivity.
  - cbn [set_group caps group]. simpl String.eqb. cbn iota.
    rewrite Hc. cbn [group]. simpl String.eqb. cbn iota.
    fold (consumed sa sw). now rewrite Ew'.
  - cbn [set_group caps group]. simpl String.eqb. cbn iota.
    rewrite Hc. cbn [group]. simpl String.eqb. cbn iota.
    rewrite (den_keeps _ _ _ "enclosed_location" Hplus) by (simpl; tauto).
    apply (den_keeps _ _ _ "enclosed_location" HG). simpl. tauto.
Qed.

(** A match of the enclosed form is the enclosed form of the scan. *)
Lemma enclosed_form_sound (s s' : mstate) :
  den enclosed_form s s' ->
  exists w,
    enclosed_at (rest s) = Some w /\ nonempty w = true /\
    (forall start, open_at start (rest s) = None) /\
    group (caps s') "enclosed_location" = VStr w /\
    group (caps s') "open_location" = group (caps s) "open_location".
Proof.
  intros (s4 & Hd & ->).
  destruct Hd as (s1 & HL & s3 & Hg & HR).
  destruct Hg as (sw & Hplus & ->).
  apply den_lit in HL. destruct HL as (RL & _ & CL).
  apply den_lit in HR. destruct HR as (RR & _ & CR). cbn [set_group rest caps] in RR, CR.
  destruct (word_run _ _ _ Hplus) as (a & w' & Ew & Hw). inversion Ew as [Ew'].
  destruct (den_reads _ _ _ Hplus) as [_ Rw]. rewrite Ew', RR in Rw.
  exists (String a w'). split; [|split; [reflexivity|split; [|split]]].
  - unfold enclosed_at. rewrite RL, Rw.
    destruct (leading_app_stop is_word (String a w') ")" (rest s4) Hw eq_refl) as [-> ->].
    reflexivity.
  - intros start. unfold open_at. rewrite RL. simpl. now rewrite andb_false_r.
  - cbn [set_group caps group]. simpl String.eqb. cbn iota.
    rewrite CR. cbn [group]. simpl String.eqb. cbn iota.
    fold (consumed s1 sw). now rewrite Ew'.
  - cbn [set_group caps group]. simpl String.eqb. cbn iota.
    rewrite CR. cbn [group]. simpl String.eqb. cbn iota.
    rewrite (den_keeps _ _ _ "open_location" Hplus) by (simpl; tauto).
    now rewrite CL.
Qed.

Lemma location_parser_forms (s s' : mstate) :
  den location_parser s s' <-> den open_form s s' \/ den enclosed_form s s'.
Proof. reflexivity. Qed.

End LocationScan.

Section LocationScanComplete.

Lemma den_gap_item (a : ascii) (p : nat) (t : string) (c : list (string * string)) :
  sep_char a = true ->
  den gap_item {| pos := p; rest := String a t; caps := c |}
               {| pos := S p; rest := t; caps := c |}.
Proof.
  intros H. unfold sep_char in H. apply orb_true_iff in H. right. destruct H as [H|H].
  - left. exists a, t. rewrite set_has_char, Ascii.eqb_sym, H. auto.
  - right. exists a, t. unfold set_has. simpl. rewrite H. auto.
Qed.

Lemma den_sep_run (g : string) :
  all_chars sep_char g = true ->
  forall p t c,
    den (Star Lazy gap_item)
        {| pos := p; rest := g ++ t; caps := c |}
        {| pos := p + String.length g; rest := t; caps := c |}.
Proof.
  induction g as [|a g IH]; intros Hg p t c.
  - change ("" ++ t) with t. simpl. rewrite Nat.add_0_r. constructor.
  - simpl in Hg. apply andb_true_iff in Hg. destruct Hg as [Ha Hg].
    change (String a g ++ t) with (String a (g ++ t)).
    cbn [den]. apply (iter_more _ _ {| pos := S p; rest := g ++ t; caps := c |}).
    + now apply den_gap_item.
    + simpl. lia.
    + specialize (IH Hg (S p) t c). cbn [den] in IH.
      simpl String.length. now rewrite Nat.add_succ_r.
Qed.

Lemma den_gap_run (p : nat) (g x : string) (c : list (string * string)) :
  all_chars sep_char g = true ->
  (p =? 0)%nat || nonempty g = true ->
  den (Plus Lazy gap_item)
      {| pos := p; rest := g ++ x; caps := c |}
      {| pos := p + String.length g; rest := x; caps := c |}.
Proof.
  intros Hg Hs. destruct g as [|a g].
  - rewrite orb_false_r in Hs. apply Nat.eqb_eq in Hs. subst p.
    change ("" ++ x) with x. simpl.
    exists {| pos := 0; rest := x; caps := c |}. split; [left; split; reflexivity|].
    constructor.
  - simpl in Hg. apply andb_true_iff in Hg. destruct Hg as [Ha Hg].
    change (String a g ++ x) with (String a (g ++ x)).
    exists {| pos := S p; rest := g ++ x; caps := c |}. split.
    + now apply den_gap_item.
    + simpl String.length. rewrite Nat.add_succ_r. apply (den_sep_run g Hg (S p)).
Qed.

Lemma den_word_run (q : quant) (p : nat) (a : ascii) (w x : string)
      (c : list (string * string)) :
  all_chars is_word (String a w) = true ->
  den (Plus q word)
      {| pos := p; rest := String a w ++ x; caps := c |}
      {| pos := p + S (String.length w); rest := x; caps := c |}.
Proof.
  intros Hw. simpl in Hw. apply andb_true_iff in Hw. destruct Hw as [Ha Hw].
  change (String a w ++ x) with (String a (w ++ x)).
  exists {| pos := S p; rest := w ++ x; caps := c |}. split.
  - exists a, (w ++ x). rewrite set_has_word. auto.
  - rewrite Nat.add_succ_r. apply (den_class_run [CWord] q w).
    rewrite (all_chars_ext _ is_word); [exact Hw | apply set_has_word].
Qed.

Lemma den_after_space_intro (y : string) (s : mstate) :
  rest s = y -> boundary2 y = true -> exists s', den after_space s s'.
Proof.
  intros Hr H. unfold boundary2 in H. apply orb_true_iff in H. destruct H as [H|H].
  - exists s. right. right. left. split; [now rewrite Hr | reflexivity].
  - destruct y as [|d y]; [discriminate|].
    apply orb_true_iff in H. destruct H as [H|H]; [apply orb_true_iff in H; destruct H as [H|H]|].
    + apply Ascii.eqb_eq in H. subst d. exists (advance s y). left.
      now apply den_lit_intro.
    + apply Ascii.eqb_eq in H. subst d. exists (advance s y). right. left.
      now apply den_lit_intro.
    + exists (advance s y). right. right. right. exists d, y.
      rewrite set_has_digit. auto.
Qed.

Lemma den_boundary_intro (x : string) (s : mstate) :
  rest s = x -> boundary x = true -> exists s', den (Seq after_word after_space) s s'.
Proof.
  intros Hr H. unfold boundary in H. apply orb_true_iff in H. destruct H as [H|H].
  - exists s, s. split; [left; split; [now rewrite Hr | reflexivity]|].
    right. right. left. split; [now rewrite Hr | reflexivity].
  - destruct x as [|c y]; [discriminate|]. apply andb_true_iff in H. destruct H as [Hc Hy].
    destruct (den_after_space_intro y (advance s y) eq_refl Hy) as (s' & Hd).
    exists s', (advance s y). split; [|exact Hd].
    right. right. left. exists c, y. unfold set_has. simpl. rewrite Hc. auto.
Qed.

(** An open form of the scan is a match of the open form. *)
Lemma open_form_complete (p : nat) (t w : string) :
  open_at (p =? 0)%nat t = Some w ->
  exists s', den open_form {| pos := p; rest := t; caps := [] |} s'.
Proof.
  unfold open_at. intros H.
  destruct ((p =? 0)%nat || nonempty (leading sep_char t)) eqn:Hs; [|discriminate].
  destruct (nonempty (leading is_word (after sep_char t))) eqn:Hn; [|discriminate].
  destruct (boundary (after is_word (after sep_char t))) eqn:Hb; [|discriminate].
  clear H.
  pose proof (leading_after sep_char t) as Et.
  pose proof (leading_after is_word (after sep_char t)) as Ew.
  pose proof (all_chars_leading sep_char t) as Ag.
  pose proof (all_chars_leading is_word (after sep_char t)) as Aw.
  set (g := leading sep_char t) in *. set (t1 := after sep_char t) in *.
  set (wd := leading is_word t1) in *. set (x := after is_word t1) in *.
  destruct wd as [|a w']; [discriminate|].
  set (s0 := {| pos := p; rest := t; caps := [] |}).
  set (sa := {| pos := p + String.length g; rest := t1; caps := [] |}).
  set (sw := {| pos := p + String.length g + S (String.length w'); rest := x; caps := [] |}).
  destruct (den_boundary_intro x (set_group "open_location" sa sw) eq_refl Hb) as (s' & Hd).
  exists (set_group "1" s0 s'). exists s'. split; [|reflexivity].
  exists sa. split.
  - unfold s0, sa. rewrite <- Et at 1. now apply den_gap_run.
  - exists (set_group "open_location" sa sw). split; [|exact Hd].
    exists sw. split; [|reflexivity].
    unfold sa, sw. rewrite <- Ew at 1. now apply den_word_run.
Qed.

(** An enclosed form of the scan is a match of the enclosed form. *)
Lemma enclosed_form_complete (p : nat) (t w : string) :
  enclosed_at t = Some w ->
  exists s', den enclosed_form {| pos := p; rest := t; caps := [] |} s'.
Proof.
  unfold enclosed_at. intros H. destruct t as [|c t1]; [discriminate|].
  destruct (Ascii.eqb c "(") eqn:Ec; [|discriminate]. apply Ascii.eqb_eq in Ec. subst c.
  pose proof (leading_after is_word t1) as Ew.
  pose proof (all_chars_leading is_word t1) as Aw.
  set (wd := leading is_word t1) in *. set (x := after is_word t1) in *.
  destruct wd as [|a w']; [discriminate|]. simpl in H.
  destruct x as [|c' post]; [discriminate|].
  destruct (Ascii.eqb c' ")") eqn:Ec; [|discriminate]. apply Ascii.eqb_eq in Ec. subst c'.
  set (s0 := {| pos := p; rest := String "(" t1; caps := [] |}).
  set (s1 := advance s0 t1).
  set (s2 := {| pos := S p + S (String.length w'); rest := String ")" post; caps := [] |}).
  exists (set_group "3" s0 (advance (set_group "enclosed_location" s1 s2) post)).
  exists (advance (set_group "enclosed_location" s1 s2) post). split; [|reflexivity].
  exists s1. split; [now apply den_lit_intro|].
  exists (set_group "enclosed_location" s1 s2). split.
  - exists s2. split; [|reflexivity].
    unfold s1, s2, s0, advance. cbn [pos rest caps]. rewrite <- Ew.
    now apply den_word_run.
  - now apply den_lit_intro.
Qed.

Lemma picked_of_match (p : nat) (t : string) (m : match_obj) :
  match_at location_parser p t = Some m ->
  exists w, location_at (p =? 0)%nat t = Some w /\ picked m = VStr w /\ nonempty w = true.
Proof.
  intros H. apply match_at_sound in H. destruct H as (s' & Hd & ->).
  apply location_parser_forms in Hd. destruct Hd as [Hd|Hd].
  - apply open_form_sound in Hd. cbn [pos rest caps] in Hd.
    destruct Hd as (w & Ho & Hn & Go & Ge). exists w. unfold location_at, picked.
    rewrite Ho, Ge, Go. simpl. auto.
  - apply enclosed_form_sound in Hd. cbn [pos rest caps] in Hd.
    destruct Hd as (w & He & Hn & Ho & Ge & _). exists w. unfold location_at, picked.
    rewrite Ho, He, Ge. destruct w; [discriminate|]. simpl. auto.
Qed.

(** One attempt of the location pattern, by the scan. *)
Lemma location_match (p : nat) (t : string) :
  match location_at (p =? 0)%nat t with
  | Some w => exists m, match_at location_parser p t = Some m /\ picked m = VStr w
                        /\ nonempty w = true
  | None => match_at location_parser p t = None
  end.
Proof.
  destruct (match_at location_parser p t) as [m|] eqn:Em.
  - destruct (picked_of_match _ _ _ Em) as (w & -> & Hp & Hn). exists m. auto.
  - destruct (location_at (p =? 0)%nat t) as [w|] eqn:El; [|reflexivity].
    exfalso. unfold location_at in El.
    assert (C : exists s', den location_parser {| pos := p; rest := t; caps := [] |} s').
    { destruct (open_at (p =? 0)%nat t) as [w'|] eqn:Eo.
      - destruct (open_form_complete _ _ _ Eo) as (s' & Hd). exists s'.
        apply location_parser_forms. now left.
      - destruct (enclosed_form_complete p _ _ El) as (s' & Hd). exists s'.
        apply location_parser_forms. now right. }
    destruct C as (s' & Hd). now apply (match_at_complete _ _ _ _ Hd).
Qed.

(** The search of the location pattern, by the scan. *)
Lemma location_search (t : string) :
  forall p,
    match find_location_from (p =? 0)%nat t with
    | Some w => exists m, search_from location_parser p t = Some m /\ picked m = VStr w
                          /\ nonempty w = true
    | None => search_from location_parser p t = None
    end.
Proof.
  induction t as [|a t IH]; intros p; cbn [find_location_from search_from];
    pose proof (location_match p) as M.
  - specialize (M ""). destruct (location_at (p =? 0)%nat "") as [w|].
    + destruct M as (m & -> & H). exists m. auto.
    + now rewrite M.
  - specialize (M (String a t)). destruct (location_at (p =? 0)%nat (String a t)) as [w|].
    + destruct M as (m & -> & H). exists m. auto.
    + rewrite M. exact (IH (S p)).
Qed.

(** The location stage, by the scan. *)
Lemma location_stage_scan (text : string) (clean_pos : dict) :
  location_stage text clean_pos
  = match find_location text with
    | Some w => <["location" := VStr w]> clean_pos
    | None => <["loc_text" := VStr text]> clean_pos
    end.
Proof.
  unfold location_stage, find_location, search.
  pose proof (location_search text 0) as S. cbn [Nat.eqb] in S.
  destruct (find_location_from true text) as [w|].
  - destruct S as (m & -> & Hp & Hn). unfold picked in Hp.
    destruct (truthy (group m "enclosed_location")); [now rewrite Hp|].
    rewrite Hp. destruct w; [discriminate|]. reflexivity.
  - now rewrite S.
Qed.

(** X19.  The location of a position that is not split, in full: it is the
    word found by the scan from the left for an open form (a word after
    the start of the text or after commas and whitespace, followed by the
    end of the text or by a whitespace character and then a parenthesis, a
    digit or the end) or an enclosed form (a word between parentheses),
    whichever offset comes first; without such a form there is no
    location and the whole position is kept as location text. *)
Theorem location_by_scan (position : string) :
  contains split_sep position = false ->
  key_of (clean_position position) "location"
  = option_map VStr (find_location position)
  /\ key_of (clean_position position) "loc_text"
     = match find_location position with
       | Some _ => None
       | None => Some (VStr position)
       end.
Proof.
  intros Hp. rewrite !(key_of_plain position _ Hp). unfold cleaned.
  rewrite location_stage_scan.
  destruct (find_location position) as [w|]; split; map_lookup;
    try reflexivity; rewrite year_stage_other by discriminate;
    unfold titled_pos; map_lookup; reflexivity.
Qed.

Lemma location_by_scan_witness :
  key_of (clean_position "Consul General, Paris (1990-1994)") "location"
  = Some (VStr "Paris")
  /\ key_of (clean_position "Consul General, Paris (1990-1994)") "loc_text" = None.
Proof.
  exact (location_by_scan "Consul General, Paris (1990-1994)" eq_refl).
Defined.

End LocationScanComplete.
